(** * Watchdog: the monitoring state engine

    A shallow embedding of the core of the Watchdog server monitor
    (src/utils/CircularBuffer.js, src/monitoring/AnomalyDetector.js,
    src/monitoring/StateManager.js and src/monitoring/Monitor.js) and the
    properties of its natural-language specification, followed by further
    properties of the same code, of the message queue of
    src/notifications/TelegramNotifier.js and of the duration text of
    src/notifications/MessageFormatter.js.

    Conventions of the embedding.
    - JavaScript numbers that the code computes with are rationals [Q]
      (exact arithmetic; the rounding of IEEE doubles is not modelled).
      The one place where the code can leave the finite numbers, the
      division [responseTime / median], returns a [num], which has the
      infinities and NaN.
    - [Date.now()] is an integer number of milliseconds, a [Z]; every
      method that reads the clock takes the reading as its argument [now].
    - A JavaScript [Map] keyed by service id is a [gmap string _], a [Set]
      a [gset string].
    - An array slot holds [Some q] (a number) or [None] (an empty slot or
      [undefined]).  The numeric read-outs of the buffer are partial: they
      answer [None] when a slot that is not a number reaches the arithmetic
      (the order in which [Array.prototype.sort] leaves such values depends
      on the engine); for every buffer that was only ever fed numbers they
      are proved to answer. *)

From Stdlib Require Import ZArith QArith Qminmax Lia Lqa Ascii String.
From Stdlib Require Import Sorting.Permutation Sorting.Sorted.
From stdpp Require Import gmap strings list fin_maps pretty.

Local Open Scope Z_scope.
Local Open Scope nat_scope.

(** ** JavaScript values *)

(** The text of an integer in a template literal.  JavaScript prints all
    the digits of an integer below 10^21 in magnitude. *)
Definition show (n : Z) : string := pretty n.

(** The result of a division of two finite numbers. *)
Inductive num : Type :=
| Fin (q : Q)
| PInf
| NInf
| NaN.

Definition is_finite (n : num) : bool :=
  match n with Fin _ => true | _ => false end.

(** [a / b] on finite operands: a zero divisor gives an infinity with the
    sign of [a], and [0 / 0] is NaN. *)
Definition js_div (a b : Q) : num :=
  if Qeq_bool b 0 then
    if Qeq_bool a 0 then NaN
    else if Qle_bool 0 a then PInf else NInf
  else Fin (a / b).

(** [a > b] on finite operands. *)
Definition js_gt (a b : Q) : bool := negb (Qle_bool a b).

(** [x || d] for a numeric option that may be absent: [undefined] and [0]
    are falsy. *)
Definition or_default (x : option Q) (d : Q) : Q :=
  match x with
  | Some q => if Qeq_bool q 0 then d else q
  | None => d
  end.

(** All the slots of an array read as numbers, or [None]. *)
Fixpoint numbers (l : list (option Q)) : option (list Q) :=
  match l with
  | [] => Some []
  | None :: _ => None
  | Some q :: l' =>
      match numbers l' with
      | Some qs => Some (q :: qs)
      | None => None
      end
  end.

(** [values.sort((a, b) => a - b)] on numbers: the sort is stable, an
    element moves in front of another only when the comparator is
    negative. *)
Fixpoint sort_insert (x : Q) (l : list Q) : list Q :=
  match l with
  | [] => [x]
  | y :: l' => if Qle_bool y x then y :: sort_insert x l' else x :: y :: l'
  end.

Fixpoint sort_numeric (l : list Q) : list Q :=
  match l with
  | [] => []
  | x :: l' => sort_insert x (sort_numeric l')
  end.

(** ** CircularBuffer (src/utils/CircularBuffer.js) *)

Module CircularBuffer.

Record t : Type := mk {
  size : nat;
  buffer : list (option Q);
  index : nat;
  count : nat
}.

(** [new CircularBuffer(size)]: throws for [size <= 0]. *)
Definition new (sz : Z) : option t :=
  if (sz <=? 0)%Z then None
  else Some {| size := Z.to_nat sz;
               buffer := replicate (Z.to_nat sz) None;
               index := 0;
               count := 0 |}.

(** [arr[i] = v]: past the end, a JavaScript array grows. *)
Definition array_set (arr : list (option Q)) (i : nat) (v : option Q)
  : list (option Q) :=
  if decide (i < length arr) then <[i := v]> arr
  else arr ++ replicate (i - length arr) None ++ [v].

Definition push (value : option Q) (b : t) : t :=
  {| size := size b;
     buffer := array_set (buffer b) (index b) value;
     index := (index b + 1) mod size b;
     count := if count b <? size b then count b + 1 else count b |}.

(** [arr.slice(from, to)]. *)
Definition slice (arr : list (option Q)) (from to : nat) : list (option Q) :=
  take (to - from) (drop from arr).

Definition getAll (b : t) : list (option Q) :=
  if count b <? size b then slice (buffer b) 0 (count b)
  else drop (index b) (buffer b) ++ slice (buffer b) 0 (index b).

Definition getMedian (b : t) : option Q :=
  vs ← numbers (getAll b);
  let values := sort_numeric vs in
  if length values =? 0 then Some 0%Q
  else
    let mid := length values / 2 in
    if length values mod 2 =? 0 then
      x ← values !! (mid - 1);
      y ← values !! mid;
      Some ((x + y) / 2)%Q
    else values !! mid.

Definition getAverage (b : t) : option Q :=
  values ← numbers (getAll b);
  if length values =? 0 then Some 0%Q
  else Some (foldl Qplus 0%Q values / inject_Z (Z.of_nat (length values)))%Q.

(** [Math.min(...values)] and [Math.max(...values)] on a non-empty list. *)
Definition getMin (b : t) : option Q :=
  values ← numbers (getAll b);
  match values with
  | [] => Some 0%Q
  | v :: vs => Some (foldl Qmin v vs)
  end.

Definition getMax (b : t) : option Q :=
  values ← numbers (getAll b);
  match values with
  | [] => Some 0%Q
  | v :: vs => Some (foldl Qmax v vs)
  end.

Definition isFull (b : t) : bool := count b =? size b.

Definition clear (b : t) : t :=
  {| size := size b;
     buffer := replicate (size b) None;
     index := 0;
     count := 0 |}.

(** The object [{ size, values }]. *)
Record json : Type := mkJson {
  json_size : Z;
  json_values : list (option Q)
}.

Definition toJSON (b : t) : json :=
  {| json_size := Z.of_nat (size b); json_values := getAll b |}.

Definition fromJSON (j : json) : option t :=
  b ← new (json_size j);
  Some (foldl (fun acc value => push value acc) b (json_values j)).

(** [length()], the number of elements held. *)
Definition length (b : t) : nat := count b.

End CircularBuffer.

(** ** Configuration (src/config/defaults.js): the fields the core reads.
    Every field may be absent. *)

Record AlertsConfig : Type := mkAlerts {
  cooldownMinutes : option Q;
  recoveryNotify : option bool;
  flappingThreshold : option Q;
  flappingWindowMinutes : option Q
}.

Record AnomalyConfig : Type := mkAnomaly {
  anomaly_enabled : option bool;
  anomaly_multiplier : option Q;
  anomaly_sampleSize : option Z
}.

Record Config : Type := mkConfig {
  alerts : option AlertsConfig;
  anomaly : option AnomalyConfig
}.

(** [config.alerts?.field] *)
Definition alerts_field {A} (f : AlertsConfig -> option A) (c : Config)
  : option A :=
  a ← alerts c; f a.

Definition anomaly_field {A} (f : AnomalyConfig -> option A) (c : Config)
  : option A :=
  a ← anomaly c; f a.

(** The configuration of src/config/defaults.js. *)
Definition defaults : Config :=
  {| alerts := Some {| cooldownMinutes := Some 30%Q;
                       recoveryNotify := Some true;
                       flappingThreshold := Some 3%Q;
                       flappingWindowMinutes := Some 10%Q |};
     anomaly := Some {| anomaly_enabled := Some true;
                        anomaly_multiplier := Some 3%Q;
                        anomaly_sampleSize := Some 20%Z |} |}.


(** What a call leaves besides the state it changed: a value, or a thrown
    [Error]. *)
Inductive outcome (A : Type) : Type :=
| Returned (a : A)
| Threw (message : string).
Arguments Returned {A} a.
Arguments Threw {A} message.

(** ** AnomalyDetector (src/monitoring/AnomalyDetector.js) *)

Module AnomalyDetector.

Record t : Type := mk {
  enabled : bool;
  multiplier : Q;
  sampleSize : Z;
  responseTimes : gmap string CircularBuffer.t
}.

Definition new (config : Config) : t :=
  {| enabled :=
       match anomaly_field anomaly_enabled config with
       | Some false => false
       | _ => true
       end;
     multiplier := or_default (anomaly_field anomaly_multiplier config) 3;
     sampleSize :=
       match anomaly_field anomaly_sampleSize config with
       | Some n => if (n =? 0)%Z then 20%Z else n
       | None => 20%Z
       end;
     responseTimes := ∅ |}.

Definition set_responseTimes (d : t) (m : gmap string CircularBuffer.t) : t :=
  {| enabled := enabled d;
     multiplier := multiplier d;
     sampleSize := sampleSize d;
     responseTimes := m |}.

(** [recordResponseTime(serviceId, responseTime)]; the constructor of the
    buffer throws when [sampleSize] is not positive. *)
Definition recordResponseTime (serviceId : string) (responseTime : Q) (d : t)
  : outcome t :=
  if negb (enabled d) then Returned d
  else
    match responseTimes d !! serviceId with
    | Some buffer =>
        Returned (set_responseTimes d
          (<[serviceId := CircularBuffer.push (Some responseTime) buffer]>
             (responseTimes d)))
    | None =>
        match CircularBuffer.new (sampleSize d) with
        | None => Threw "Buffer size must be positive"
        | Some buffer =>
            Returned (set_responseTimes d
              (<[serviceId := CircularBuffer.push (Some responseTime) buffer]>
                 (responseTimes d)))
        end
    end.

(** The three shapes of object that [checkAnomaly] returns. *)
Record Report : Type := mkReport {
  report_isAnomaly : bool;
  report_responseTime : Q;
  report_median : Q;
  report_average : Q;
  report_threshold : Q;
  report_multiplier : Q;
  report_deviation : num;
  report_samples : nat
}.

Inductive Result : Type :=
| DetectionDisabled
| InsufficientSamples (samplesCollected samplesNeeded : nat)
| Checked (r : Report).

Definition isAnomaly (r : Result) : bool :=
  match r with
  | Checked rep => report_isAnomaly rep
  | _ => false
  end.


(** [checkAnomaly(serviceId, responseTime)]: a read of the detector; the
    answer is [None] only when the buffer holds a slot that is not a
    number. *)
Definition checkAnomaly (serviceId : string) (responseTime : Q) (d : t)
  : option Result :=
  if negb (enabled d) then Some DetectionDisabled
  else
    match responseTimes d !! serviceId with
    | None => Some (InsufficientSamples 0 5)
    | Some buffer =>
        if CircularBuffer.length buffer <? 5 then
          Some (InsufficientSamples (CircularBuffer.length buffer) 5)
        else
          median ← CircularBuffer.getMedian buffer;
          average ← CircularBuffer.getAverage buffer;
          let threshold := (median * multiplier d)%Q in
          let isAnomaly := js_gt responseTime threshold in
          Some (Checked
            {| report_isAnomaly := isAnomaly;
               report_responseTime := responseTime;
               report_median := median;
               report_average := average;
               report_threshold := threshold;
               report_multiplier := multiplier d;
               report_deviation := js_div responseTime median;
               report_samples := CircularBuffer.length buffer |})
    end.

Definition clearHistory (serviceId : string) (d : t) : t :=
  set_responseTimes d (delete serviceId (responseTimes d)).

(** [toJSON()]: an object with one entry per tracked service. *)
Definition toJSON (d : t) : gmap string CircularBuffer.json :=
  CircularBuffer.toJSON <$> responseTimes d.

(** [fromJSON(data)]: nothing happens for data that is null or not an
    object, here [None]; an entry whose buffer cannot be restored is
    logged and skipped. *)
Definition fromJSON (data : option (gmap string CircularBuffer.json))
    (d : t) : t :=
  match data with
  | None => d
  | Some data =>
      set_responseTimes d
        (map_fold
           (fun serviceId bufferData restored =>
              match CircularBuffer.fromJSON bufferData with
              | Some buffer => <[serviceId := buffer]> restored
              | None => restored
              end)
           (responseTimes d) data)
  end.

End AnomalyDetector.

(** ** StateManager (src/monitoring/StateManager.js) *)

Module StateManager.

Record FailureRecord : Type := mkFailure {
  firstSeen : Z;
  lastAlertSent : Z;
  error : option string;
  consecutiveFailures : Z
}.

Inductive Health : Type := healthy | unhealthy.

Record Transition : Type := mkTransition {
  time : Z;
  state : Health
}.

(** [this.state]: the four collections. *)
Record State : Type := mkState {
  failures : gmap string FailureRecord;
  flapping : gmap string (list Transition);
  acknowledged : gset string;
  sslExpiry : gmap string string
}.

Definition empty : State :=
  {| failures := ∅; flapping := ∅; acknowledged := ∅; sslExpiry := ∅ |}.

Definition set_failures (st : State) (m : gmap string FailureRecord) : State :=
  {| failures := m;
     flapping := flapping st;
     acknowledged := acknowledged st;
     sslExpiry := sslExpiry st |}.

Definition set_flapping (st : State) (m : gmap string (list Transition))
  : State :=
  {| failures := failures st;
     flapping := m;
     acknowledged := acknowledged st;
     sslExpiry := sslExpiry st |}.

Definition set_acknowledged (st : State) (s : gset string) : State :=
  {| failures := failures st;
     flapping := flapping st;
     acknowledged := s;
     sslExpiry := sslExpiry st |}.

Definition set_sslExpiry (st : State) (m : gmap string string) : State :=
  {| failures := failures st;
     flapping := flapping st;
     acknowledged := acknowledged st;
     sslExpiry := m |}.

Inductive Action : Type := first_failure | ongoing_failure | suppressed.

(** [recordFailure(serviceId, error)], with [now] the clock reading. *)
Definition recordFailure (config : Config) (now : Z)
    (serviceId : string) (err : option string) (st : State)
  : Action * State :=
  match failures st !! serviceId with
  | None =>
      (first_failure,
       set_failures st
         (<[serviceId := {| firstSeen := now;
                            lastAlertSent := now;
                            error := err;
                            consecutiveFailures := 1 |}]> (failures st)))
  | Some existing =>
      let existing :=
        {| firstSeen := firstSeen existing;
           lastAlertSent := lastAlertSent existing;
           error := err;
           consecutiveFailures := (consecutiveFailures existing + 1)%Z |} in
      let st := set_failures st (<[serviceId := existing]> (failures st)) in
      let cooldownMs :=
        (or_default (alerts_field cooldownMinutes config) 30 * 60 * 1000)%Q in
      let minutesSinceLastAlert :=
        (inject_Z (now - lastAlertSent existing) / 1000 / 60)%Q in
      if Qle_bool (cooldownMs / 60000) minutesSinceLastAlert then
        let existing :=
          {| firstSeen := firstSeen existing;
             lastAlertSent := now;
             error := error existing;
             consecutiveFailures := consecutiveFailures existing |} in
        (ongoing_failure,
         set_failures st (<[serviceId := existing]> (failures st)))
      else (suppressed, st)
  end.

Record RecoveryInfo : Type := mkRecovery {
  downtimeDuration : Z;
  failuresSeen : Z;
  recovery_firstSeen : Z
}.

(** [recordRecovery(serviceId)]; [None] is JavaScript's [null]. *)
Definition recordRecovery (now : Z) (serviceId : string) (st : State)
  : option RecoveryInfo * State :=
  match failures st !! serviceId with
  | None => (None, st)
  | Some failure =>
      let downtime := (now - firstSeen failure)%Z in
      (Some {| downtimeDuration := downtime;
               failuresSeen := consecutiveFailures failure;
               recovery_firstSeen := firstSeen failure |},
       set_failures st (delete serviceId (failures st)))
  end.

(** [this.state.flapping.get(serviceId) || []] *)
Definition transitions_of (serviceId : string) (st : State)
  : list Transition :=
  default [] (flapping st !! serviceId).

(** [transitions.filter((t) => now - t.time < windowMs)] *)
Definition in_window (now : Z) (windowMs : Q) (t : Transition) : bool :=
  negb (Qle_bool windowMs (inject_Z (now - time t))).

Definition isFlapping (config : Config) (now : Z) (serviceId : string)
    (st : State) : bool :=
  let transitions := transitions_of serviceId st in
  if length transitions <? 3 then false
  else
    let threshold := or_default (alerts_field flappingThreshold config) 3 in
    let windowMs :=
      (or_default (alerts_field flappingWindowMinutes config) 10
         * 60 * 1000)%Q in
    let recentTransitions := List.filter (in_window now windowMs) transitions in
    Qle_bool threshold (inject_Z (Z.of_nat (length recentTransitions))).

(** [recordStateChange(serviceId, newState)]: [now] is the time stamp of
    the transition, [now'] the later reading taken by [isFlapping]. *)
Definition recordStateChange (config : Config) (now now' : Z)
    (serviceId : string) (newState : Health) (st : State) : bool * State :=
  let transitions :=
    transitions_of serviceId st ++ [{| time := now; state := newState |}] in
  let transitions :=
    if 10 <? length transitions then drop 1 transitions else transitions in
  let st := set_flapping st (<[serviceId := transitions]> (flapping st)) in
  (isFlapping config now' serviceId st, st).

Record FlappingInfo : Type := mkFlappingInfo {
  info_isFlapping : bool;
  transitionCount : nat;
  info_transitions : list Transition
}.

(** [getFlappingInfo(serviceId)]: reads the clock for the window, and
    again inside [isFlapping]. *)
Definition getFlappingInfo (config : Config) (now now' : Z)
    (serviceId : string) (st : State) : FlappingInfo :=
  let transitions := transitions_of serviceId st in
  let windowMs :=
    (or_default (alerts_field flappingWindowMinutes config) 10
       * 60 * 1000)%Q in
  let recentTransitions := List.filter (in_window now windowMs) transitions in
  {| info_isFlapping := isFlapping config now' serviceId st;
     transitionCount := length recentTransitions;
     info_transitions := recentTransitions |}.

Definition isAcknowledged (serviceId : string) (st : State) : bool :=
  bool_decide (serviceId ∈ acknowledged st).

Definition acknowledge (serviceId : string) (st : State) : State :=
  set_acknowledged st ({[serviceId]} ∪ acknowledged st).

Definition unacknowledge (serviceId : string) (st : State) : State :=
  set_acknowledged st (acknowledged st ∖ {[serviceId]}).

Definition getFailure (serviceId : string) (st : State)
  : option FailureRecord :=
  failures st !! serviceId.

(** [getAllFailures()]: the entries of the map, each with its id. *)
Definition getAllFailures (st : State) : list (string * FailureRecord) :=
  map_to_list (failures st).

(** [updateSSLExpiry(domain, expiryDate)], the date in ISO form. *)
Definition updateSSLExpiry (domain expiryDate : string) (st : State)
  : State :=
  set_sslExpiry st (<[domain := expiryDate]> (sslExpiry st)).

Definition getSSLExpiry (domain : string) (st : State) : option string :=
  sslExpiry st !! domain.

Definition clearFlappingHistory (serviceId : string) (st : State) : State :=
  set_flapping st (delete serviceId (flapping st)).

(** *** Persistence *)

(** The parsed content of the state file: each collection is an array
    of entries and may be missing. *)
Record Document : Type := mkDocument {
  doc_failures : option (list (string * FailureRecord));
  doc_flapping : option (list (string * list Transition));
  doc_acknowledged : option (list string);
  doc_sslExpiry : option (list (string * string));
  lastSaved : option Z
}.

(** A file holds text that [JSON.parse] rejects, or a document;
    [JSON.parse (JSON.stringify d)] is taken to be [d]. *)
Inductive File : Type :=
| Unparseable
| Json (d : Document).

(** The file system the engine sees: its files, and whether a write
    succeeds. *)
Record Disk : Type := mkDisk {
  files : gmap string File;
  writable : bool
}.

(** [new Map(entries)]: a later entry overrides an earlier one. *)
Definition map_of_entries {V} (entries : list (string * V)) : gmap string V :=
  foldl (fun m e => <[e.1 := e.2]> m) ∅ entries.

(** [load()]: a missing file, or one that does not parse, leaves the
    state as it is. *)
Definition load (statePath : string) (disk : Disk) (st : State) : State :=
  match files disk !! statePath with
  | None => st
  | Some Unparseable => st
  | Some (Json data) =>
      {| failures := map_of_entries (default [] (doc_failures data));
         flapping := map_of_entries (default [] (doc_flapping data));
         acknowledged := list_to_set (default [] (doc_acknowledged data));
         sslExpiry := map_of_entries (default [] (doc_sslExpiry data)) |}
  end.

(** [save()]: a failed write is logged and changes nothing. *)
Definition save (statePath : string) (now : Z) (st : State) (disk : Disk)
  : Disk :=
  let data :=
    {| doc_failures := Some (map_to_list (failures st));
       doc_flapping := Some (map_to_list (flapping st));
       doc_acknowledged := Some (elements (acknowledged st));
       doc_sslExpiry := Some (map_to_list (sslExpiry st));
       lastSaved := Some now |} in
  if writable disk then
    {| files := <[statePath := Json data]> (files disk);
       writable := writable disk |}
  else disk.

(** [new StateManager(statePath, config)]: empty collections, then
    [load()]. *)
Definition new (statePath : string) (disk : Disk) : State :=
  load statePath disk empty.

End StateManager.

(** ** Monitor (src/monitoring/Monitor.js) *)

Module Monitor.

(** A [HealthCheckResult] (src/checkers/HealthChecker.js). *)
Record CheckResult : Type := mkResult {
  healthy : bool;
  responseTime : Q;
  error : option string
}.

(** The service description handed through to the notifier: an endpoint
    given as a bare URL, or a configuration object. *)
Inductive Service : Type :=
| ServiceUrl (url : string)
| ServiceConfig (name url : string).

Definition service_url (s : Service) : string :=
  match s with
  | ServiceUrl url => url
  | ServiceConfig _ url => url
  end.

(** The calls the monitor makes on its notifier. *)
Inductive Notification : Type :=
| FlappingAlert (serviceId : string) (service : Service)
    (flappingInfo : StateManager.FlappingInfo)
| SSLWarning (serviceId : string) (service : Service) (result : CheckResult)
| ResourceWarning (resourceType : option string) (result : CheckResult)
| FailureAlert (serviceId : string) (service : Service)
    (result : CheckResult) (alertAction : StateManager.Action)
| RecoveryAlert (serviceId : string) (service : Service)
    (recovery : StateManager.RecoveryInfo)
| AnomalyAlert (serviceId : string) (service : Service)
    (anomaly : AnomalyDetector.Result).

(** The monitor itself: its configuration and whether it was given a
    notifier ([this.notifier] may be [null]). *)
Record t : Type := mk {
  config : Config;
  notifier : bool
}.

(** Everything a check can read or change: the state manager, the
    anomaly detector, the calls received by the notifier (oldest first),
    and the clock, the sequence of values that the successive calls of
    [Date.now()] return. *)
Record World : Type := mkWorld {
  stateManager : StateManager.State;
  anomalyDetector : AnomalyDetector.t;
  notified : list Notification;
  clock : nat -> Z;
  reads : nat
}.

(** A run either leaves the embedding (a slot that is not a number
    reached the arithmetic of the detector) or gives a value and the
    next world. *)
Definition M (A : Type) : Type := World -> option (A * World).

Definition ret {A} (a : A) : M A := fun w => Some (a, w).

Definition bind {A B} (m : M A) (k : A -> M B) : M B :=
  fun w => match m w with
           | Some (a, w') => k a w'
           | None => None
           end.

#[export] Instance M_ret : MRet M := @ret.
#[export] Instance M_bind : MBind M := fun A B k m => bind m k.

Definition Date_now : M Z :=
  fun w => Some (clock w (reads w),
                 {| stateManager := stateManager w;
                    anomalyDetector := anomalyDetector w;
                    notified := notified w;
                    clock := clock w;
                    reads := S (reads w) |}).

(** A method of the state manager that returns a value and a state. *)
Definition on_state {A} (f : StateManager.State -> A * StateManager.State)
  : M A :=
  fun w => let '(a, st) := f (stateManager w) in
           Some (a, {| stateManager := st;
                       anomalyDetector := anomalyDetector w;
                       notified := notified w;
                       clock := clock w;
                       reads := reads w |}).

Definition read_state {A} (f : StateManager.State -> A) : M A :=
  on_state (fun st => (f st, st)).

Definition update_state (f : StateManager.State -> StateManager.State)
  : M unit :=
  on_state (fun st => (tt, f st)).

Definition set_detector (d : AnomalyDetector.t) : M unit :=
  fun w => Some (tt, {| stateManager := stateManager w;
                        anomalyDetector := d;
                        notified := notified w;
                        clock := clock w;
                        reads := reads w |}).

Definition read_detector {A} (f : AnomalyDetector.t -> A) : M A :=
  fun w => Some (f (anomalyDetector w), w).

(** A read-out that the embedding covers only when it is [Some]. *)
Definition defined {A} (o : option A) : M A :=
  fun w => match o with
           | Some a => Some (a, w)
           | None => None
           end.

(** [await this.notifier.send...(...)] *)
Definition send (n : Notification) : M unit :=
  fun w => Some (tt, {| stateManager := stateManager w;
                        anomalyDetector := anomalyDetector w;
                        notified := notified w ++ [n];
                        clock := clock w;
                        reads := reads w |}).

(** The methods of the state manager, each reading the clock where the
    source does. *)
Definition recordFailure (m : t) (serviceId : string) (err : option string)
  : M StateManager.Action :=
  now ← Date_now;
  on_state (StateManager.recordFailure (config m) now serviceId err).

Definition recordRecovery (serviceId : string)
  : M (option StateManager.RecoveryInfo) :=
  now ← Date_now;
  on_state (StateManager.recordRecovery now serviceId).

Definition recordStateChange (m : t) (serviceId : string)
    (newState : StateManager.Health) : M bool :=
  now ← Date_now;
  now' ← Date_now;
  on_state (StateManager.recordStateChange (config m) now now' serviceId
              newState).

Definition isFlapping (m : t) (serviceId : string) : M bool :=
  now ← Date_now;
  read_state (StateManager.isFlapping (config m) now serviceId).

Definition getFlappingInfo (m : t) (serviceId : string)
  : M StateManager.FlappingInfo :=
  now ← Date_now;
  now' ← Date_now;
  read_state (StateManager.getFlappingInfo (config m) now now' serviceId).

(** [serviceId.split(':')] *)
Fixpoint split_colon (s : string) : list string :=
  match s with
  | EmptyString => [EmptyString]
  | String c s' =>
      if Ascii.eqb c ":"%char then EmptyString :: split_colon s'
      else match split_colon s' with
           | part :: parts => String c part :: parts
           | [] => [String c EmptyString]
           end
  end.

Definition startsWith (s p : string) : bool := String.prefix p s.

Definition handleFailure (m : t) (serviceId : string) (service : Service)
    (result : CheckResult) : M unit :=
  alertAction ← recordFailure m serviceId (error result);
  flapping ← isFlapping m serviceId;
  if (flapping : bool) then
    flappingInfo ← getFlappingInfo m serviceId;
    if notifier m then send (FlappingAlert serviceId service flappingInfo)
    else ret tt
  else
    match alertAction with
    | StateManager.first_failure | StateManager.ongoing_failure =>
        if notifier m then
          if startsWith serviceId "ssl:" then
            send (SSLWarning serviceId service result)
          else if startsWith serviceId "resource:" then
            let resourceType := split_colon serviceId !! 1 in
            send (ResourceWarning resourceType result)
          else send (FailureAlert serviceId service result alertAction)
        else ret tt
    | StateManager.suppressed => ret tt
    end.

Definition handleRecovery (m : t) (serviceId : string) (service : Service)
  : M unit :=
  recovery ← recordRecovery serviceId;
  match recovery with
  | None => ret tt
  | Some recovery =>
      (if default false (alerts_field recoveryNotify (config m))
          && notifier m
       then send (RecoveryAlert serviceId service recovery)
       else ret tt);;
      update_state (StateManager.clearFlappingHistory serviceId)
  end.

Definition handleCheckResult (m : t) (serviceId : string)
    (service : Service) (result : CheckResult) : M unit :=
  acknowledged ← read_state (StateManager.isAcknowledged serviceId);
  if (acknowledged : bool) then ret tt
  else
    previousFailure ← read_state (StateManager.getFailure serviceId);
    let wasHealthy := negb (bool_decide (is_Some previousFailure)) in
    let isHealthy := healthy result in
    (if negb (Bool.eqb wasHealthy isHealthy) then
       _ ← recordStateChange m serviceId
              (if isHealthy then StateManager.healthy
               else StateManager.unhealthy);
       ret tt
     else ret tt);;
    if negb (healthy result) then handleFailure m serviceId service result
    else if bool_decide (is_Some previousFailure) then
      handleRecovery m serviceId service
    else ret tt.

Definition handleAnomaly (m : t) (serviceId : string) (service : Service)
    (anomaly : AnomalyDetector.Result) : M unit :=
  if notifier m then send (AnomalyAlert serviceId service anomaly)
  else ret tt.

(** [checkEndpoint(endpoint)], given the result of the HTTP checker.  An
    error thrown inside the [try] block is logged and ends the check. *)
Definition checkEndpoint (m : t) (endpoint : Service) (result : CheckResult)
  : M unit :=
  let url := service_url endpoint in
  let serviceId := "http:" +:+ url in
  if healthy result then
    recorded ← read_detector
      (AnomalyDetector.recordResponseTime serviceId (responseTime result));
    match recorded with
    | Threw _ => ret tt
    | Returned d =>
        set_detector d;;
        answer ← read_detector
          (AnomalyDetector.checkAnomaly serviceId (responseTime result));
        anomaly ← defined answer;
        (if AnomalyDetector.isAnomaly anomaly then
           handleAnomaly m serviceId endpoint anomaly
         else ret tt);;
        handleCheckResult m serviceId endpoint result
    end
  else handleCheckResult m serviceId endpoint result.

(** [checkSSLCert(endpoint)], given the result of the TLS checker. *)
Definition checkSSLCert (m : t) (endpoint : Service) (result : CheckResult)
  : M unit :=
  let url := service_url endpoint in
  let serviceId := "ssl:" +:+ url in
  handleCheckResult m serviceId (ServiceConfig "" url) result.

(** [checkResources()], given the three results of the resource
    checker. *)
Definition checkResources (m : t) (disk ram cpu : CheckResult) : M unit :=
  handleCheckResult m "resource:disk" (ServiceConfig "disk" "") disk;;
  handleCheckResult m "resource:ram" (ServiceConfig "ram" "") ram;;
  handleCheckResult m "resource:cpu" (ServiceConfig "cpu" "") cpu.

(** [cronFromMs(ms)] for an integer number of milliseconds. *)
Definition cronFromMs (ms : Z) : string :=
  let seconds := (ms / 1000)%Z in
  if (seconds <? 60)%Z then "*/" +:+ show seconds +:+ " * * * * *"
  else
    let minutes := (seconds / 60)%Z in
    if (minutes <? 60)%Z then "*/" +:+ show minutes +:+ " * * * *"
    else
      let hours := (minutes / 60)%Z in
      "0 */" +:+ show hours +:+ " * * *".

End Monitor.

(** ** MessageFormatter.js: durations *)

Module MessageFormatter.

(** [formatDuration(ms)] for an integer number of milliseconds.
    [Math.floor] of a quotient by a positive constant is [Z.div]; the
    remainder operator [%] of JavaScript takes the sign of the dividend and
    is [Z.rem]. *)
Definition formatDuration (ms : Z) : string :=
  let seconds := (ms / 1000)%Z in
  let minutes := (seconds / 60)%Z in
  let hours := (minutes / 60)%Z in
  let days := (hours / 24)%Z in
  if (0 <? days)%Z then
    show days +:+ "d " +:+ show (Z.rem hours 24) +:+ "h"
  else if (0 <? hours)%Z then
    show hours +:+ "h " +:+ show (Z.rem minutes 60) +:+ "m"
  else if (0 <? minutes)%Z then
    show minutes +:+ "m " +:+ show (Z.rem seconds 60) +:+ "s"
  else
    show seconds +:+ "s".

End MessageFormatter.

(** ** TelegramNotifier.js: the rate-limited message queue

    [sendMessage] and [processQueue] are asynchronous: an activation of
    [processQueue] runs until it reaches an [await], is suspended there, and
    is resumed by the timer or by the transport.  JavaScript runs each such
    piece to completion before anything else happens, so the embedding has
    one function per piece and an event for each way a piece is started. *)

Module TelegramNotifier.

(** An entry of [messageQueue].  The [resolve] and [reject] of an entry
    belong to the promise that [sendMessage] created for it; promises are
    numbered in the order of their creation. *)
Record Entry : Type := mkEntry {
  message : string;
  promise : nat
}.

Record t : Type := mk {
  messageQueue : list Entry;
  isProcessingQueue : bool;
  lastSentTime : Z
}.

(** [this.minInterval = 1000 / 30]. *)
Definition minInterval : Q := 1000 / 30.

(** The fields the constructor initialises. *)
Definition new : t := mk [] false 0.

(** The [await] at which an activation of [processQueue] is suspended:
    the sleep, with its duration, or the call of the transport for an
    entry taken off the queue. *)
Inductive Activation : Type :=
| AwaitSleep (ms : Q)
| AwaitSend (e : Entry).

(** The notifier and its surroundings: the suspended activations of
    [processQueue], the calls of [bot.sendMessage] made so far (oldest
    first), the promises settled so far with [true] for [resolve()] and
    [false] for [reject(error)] (oldest first), the number of promises
    created, and the number of activations ended by an exception. *)
Record Run : Type := mkRun {
  notifier : t;
  suspended : list Activation;
  transport : list string;
  settled : list (nat * bool);
  promises : nat;
  uncaught : nat
}.

Definition start : Run := mkRun new [] [] [] 0 0.

Definition set_notifier (r : Run) (n : t) : Run :=
  mkRun n (suspended r) (transport r) (settled r) (promises r) (uncaught r).

Definition suspend (r : Run) (a : Activation) : Run :=
  mkRun (notifier r) (suspended r ++ [a]) (transport r) (settled r)
    (promises r) (uncaught r).

Definition resume (i : nat) (r : Run) : Run :=
  mkRun (notifier r) (delete i (suspended r)) (transport r) (settled r)
    (promises r) (uncaught r).

Definition settle (e : Entry) (ok : bool) (r : Run) : Run :=
  mkRun (notifier r) (suspended r) (transport r)
    (settled r ++ [(promise e, ok)]) (promises r) (uncaught r).

(** [a < b] on numbers. *)
Definition js_lt (a b : Q) : bool := negb (Qle_bool b a).

(** From [const { message, resolve, reject } = this.messageQueue.shift()]
    to the suspension at [await this.bot.sendMessage(...)].  On an empty
    queue [shift()] returns [undefined] and the destructuring throws: the
    activation ends there, with [isProcessingQueue] left as it is. *)
Definition dispatch (r : Run) : Run :=
  let n := notifier r in
  match messageQueue n with
  | [] =>
      mkRun n (suspended r) (transport r) (settled r) (promises r)
        (S (uncaught r))
  | e :: rest =>
      mkRun (mk rest (isProcessingQueue n) (lastSentTime n))
        (suspended r ++ [AwaitSend e]) (transport r ++ [message e])
        (settled r) (promises r) (uncaught r)
  end.

(** From the test of the [while] loop to the next suspension, or to the
    end of the activation; [now] is the reading of [Date.now()] in the
    loop body. *)
Definition loop (now : Z) (r : Run) : Run :=
  let n := notifier r in
  if (0 <? List.length (messageQueue n))%nat then
    let timeSinceLastSent := inject_Z (now - lastSentTime n) in
    if js_lt timeSinceLastSent minInterval then
      suspend r (AwaitSleep (minInterval - timeSinceLastSent))
    else dispatch r
  else set_notifier r (mk (messageQueue n) false (lastSentTime n)).

(** [processQueue()] up to its first suspension. *)
Definition processQueue (now : Z) (r : Run) : Run :=
  let n := notifier r in
  if isProcessingQueue n || (List.length (messageQueue n) =? 0)%nat then r
  else loop now (set_notifier r (mk (messageQueue n) true (lastSentTime n))).

(** [sendMessage(message)]: the executor of the new promise pushes the
    entry and calls [processQueue()]. *)
Definition sendMessage (text : string) (now : Z) (r : Run) : Run :=
  let n := notifier r in
  let entry := mkEntry text (promises r) in
  processQueue now
    (mkRun (mk (messageQueue n ++ [entry]) (isProcessingQueue n)
              (lastSentTime n))
       (suspended r) (transport r) (settled r) (S (promises r))
       (uncaught r)).

(** The continuation of [await this.sleep(...)]. *)
Definition afterSleep (i : nat) (r : Run) : Run := dispatch (resume i r).

(** The continuation of [await this.bot.sendMessage(...)] when the
    transport succeeded: [sentAt] is the reading of [Date.now()] stored in
    [lastSentTime], [now] the one of the next turn of the loop. *)
Definition afterSent (i : nat) (e : Entry) (sentAt now : Z) (r : Run) : Run :=
  let r := resume i r in
  let n := notifier r in
  loop now
    (settle e true
       (set_notifier r (mk (messageQueue n) (isProcessingQueue n) sentAt))).

(** The [catch] branch: the transport failed. *)
Definition afterFailed (i : nat) (e : Entry) (now : Z) (r : Run) : Run :=
  loop now (settle e false (resume i r)).

(** What can happen to a notifier: a caller sends a message, the timer of
    the suspended activation [i] fires, or the transport call of the
    suspended activation [i] succeeds or fails. *)
Inductive Event : Type :=
| Send (text : string) (now : Z)
| Timer (i : nat)
| Delivered (i : nat) (sentAt now : Z)
| Failed (i : nat) (now : Z).

(** One event; [None] when the event cannot happen in this state (there is
    no such suspended activation, or it waits for something else). *)
Definition step (ev : Event) (r : Run) : option Run :=
  match ev with
  | Send text now => Some (sendMessage text now r)
  | Timer i =>
      match suspended r !! i with
      | Some (AwaitSleep _) => Some (afterSleep i r)
      | _ => None
      end
  | Delivered i sentAt now =>
      match suspended r !! i with
      | Some (AwaitSend e) => Some (afterSent i e sentAt now r)
      | _ => None
      end
  | Failed i now =>
      match suspended r !! i with
      | Some (AwaitSend e) => Some (afterFailed i e now r)
      | _ => None
      end
  end.

Fixpoint run (evs : list Event) (r : Run) : option Run :=
  match evs with
  | [] => Some r
  | ev :: evs => r' ← step ev r; run evs r'
  end.

End TelegramNotifier.

(** * Vocabulary of the properties *)

(** ** Ring buffers *)

(** The representation invariant of a buffer. *)
Definition wf (b : CircularBuffer.t) : Prop :=
  0 < CircularBuffer.size b
  ∧ length (CircularBuffer.buffer b) = CircularBuffer.size b
  ∧ CircularBuffer.index b < CircularBuffer.size b
  ∧ CircularBuffer.count b ≤ CircularBuffer.size b
  ∧ (CircularBuffer.count b < CircularBuffer.size b ->
     CircularBuffer.index b = CircularBuffer.count b).

(** The buffers that the constructor, [push] and [clear] produce. *)
Inductive reachable : CircularBuffer.t -> Prop :=
| reachable_new sz b : CircularBuffer.new sz = Some b -> reachable b
| reachable_push v b : reachable b -> reachable (CircularBuffer.push v b)
| reachable_clear b : reachable b -> reachable (CircularBuffer.clear b).

(** The reachable buffers into which only numbers were pushed. *)
Inductive fed : CircularBuffer.t -> Prop :=
| fed_new sz b : CircularBuffer.new sz = Some b -> fed b
| fed_push q b : fed b -> fed (CircularBuffer.push (Some q) b)
| fed_clear b : fed b -> fed (CircularBuffer.clear b).

Definition pushes (values : list (option Q)) (b : CircularBuffer.t)
  : CircularBuffer.t :=
  foldl (fun acc value => CircularBuffer.push value acc) b values.

(** A buffer of capacity 3 after the pushes 100, 150, 120. *)
Definition buffer_100_150_120 : CircularBuffer.t :=
  pushes [Some 100%Q; Some 150%Q; Some 120%Q]
    (CircularBuffer.mk 3 [None; None; None] 0 0).

(** A buffer of capacity 3 after five pushes: it has wrapped around. *)
Definition buffer_wrapped : CircularBuffer.t :=
  pushes [Some 1%Q; Some 2%Q; Some 3%Q; Some 4%Q; Some 5%Q]
    (CircularBuffer.mk 3 [None; None; None] 0 0).

(** ** State manager *)

(** A writable disk without files. *)
Definition empty_disk : StateManager.Disk :=
  {| StateManager.files := ∅; StateManager.writable := true |}.

(** A state with one failing service, an acknowledged one, a transition
    log and a cached expiry date. *)
Definition failing_state : StateManager.State :=
  StateManager.updateSSLExpiry "example.org" "2027-01-01T00:00:00.000Z"
    (StateManager.acknowledge "docker:db"
       (snd (StateManager.recordStateChange defaults 0 0 "docker:web"
               StateManager.unhealthy
               (snd (StateManager.recordFailure defaults 0 "docker:web"
                       (Some "exited") StateManager.empty))))).

(** A call of the failure/recovery interface, with the clock reading it
    takes. *)
Inductive Call : Type :=
| CallFailure (serviceId : string) (err : option string) (now : Z)
| CallRecovery (serviceId : string) (now : Z).

Definition call_id (c : Call) : string :=
  match c with
  | CallFailure serviceId _ _ => serviceId
  | CallRecovery serviceId _ => serviceId
  end.

Definition is_failure (c : Call) : bool :=
  match c with
  | CallFailure _ _ _ => true
  | CallRecovery _ _ => false
  end.

Definition run_call (config : Config) (st : StateManager.State) (c : Call)
  : StateManager.State :=
  match c with
  | CallFailure serviceId err now =>
      snd (StateManager.recordFailure config now serviceId err st)
  | CallRecovery serviceId now =>
      snd (StateManager.recordRecovery now serviceId st)
  end.

Definition run_calls (config : Config) (calls : list Call)
    (st : StateManager.State) : StateManager.State :=
  foldl (run_call config) st calls.

(** The most recent call that concerns [serviceId]. *)
Definition last_call_for (serviceId : string) (calls : list Call)
  : option Call :=
  last (filter (fun c => call_id c = serviceId) calls).

(** The predicate of the specification: at least [threshold] of the
    transitions are younger than [windowMinutes]. *)
Definition flapping_spec (threshold windowMinutes : Q) (now : Z)
    (transitions : list StateManager.Transition) : bool :=
  Qle_bool threshold
    (inject_Z (Z.of_nat (length
       (List.filter
          (fun t => negb (Qle_bool (windowMinutes * 60000)
                            (inject_Z (now - StateManager.time t))))
          transitions)))).

(** Three alternating transitions, one minute apart. *)
Definition three_transitions : StateManager.State :=
  snd (StateManager.recordStateChange defaults 120000 120000 "docker:web"
         StateManager.unhealthy
  (snd (StateManager.recordStateChange defaults 60000 60000 "docker:web"
          StateManager.healthy
  (snd (StateManager.recordStateChange defaults 0 0 "docker:web"
          StateManager.unhealthy StateManager.empty))))).

(** Two of them. *)
Definition two_transitions : StateManager.State :=
  snd (StateManager.recordStateChange defaults 60000 60000 "docker:web"
          StateManager.healthy
  (snd (StateManager.recordStateChange defaults 0 0 "docker:web"
          StateManager.unhealthy StateManager.empty))).

(** A configuration that the schema accepts, with a flapping threshold
    of 2. *)
Definition threshold_two : Config :=
  {| alerts := Some {| cooldownMinutes := Some 30%Q;
                       recoveryNotify := Some true;
                       flappingThreshold := Some 2%Q;
                       flappingWindowMinutes := Some 10%Q |};
     anomaly := None |}.

(** ** Anomaly detector *)


(** Recording one sample after the other. *)
Definition record_all (serviceId : string) (samples : list Q)
    (d : AnomalyDetector.t) : outcome AnomalyDetector.t :=
  foldl (fun acc sample =>
           match acc with
           | Returned d' =>
               AnomalyDetector.recordResponseTime serviceId sample d'
           | Threw message => Threw message
           end)
    (Returned d) samples.

(** ** Monitor *)

(** The alert for a service that is down: the call [handleFailure]
    chooses from the prefix of the service id. *)
Definition down_alert (serviceId : string) (service : Monitor.Service)
    (result : Monitor.CheckResult) (alertAction : StateManager.Action)
  : Monitor.Notification :=
  if Monitor.startsWith serviceId "ssl:" then
    Monitor.SSLWarning serviceId service result
  else if Monitor.startsWith serviceId "resource:" then
    Monitor.ResourceWarning (Monitor.split_colon serviceId !! 1) result
  else Monitor.FailureAlert serviceId service result alertAction.

Definition is_anomaly_alert (n : Monitor.Notification) : bool :=
  match n with
  | Monitor.AnomalyAlert _ _ _ => true
  | _ => false
  end.

(** A monitor with the default configuration and a notifier, and one
    without a notifier. *)
Definition loud_monitor : Monitor.t :=
  {| Monitor.config := defaults; Monitor.notifier := true |}.


(** A world at start-up, whose clock advances by a second at each
    reading. *)
Definition fresh_world : Monitor.World :=
  {| Monitor.stateManager := StateManager.empty;
     Monitor.anomalyDetector := AnomalyDetector.new defaults;
     Monitor.notified := [];
     Monitor.clock := fun n => (Z.of_nat n * 1000)%Z;
     Monitor.reads := 0 |}.

(** The same world after the operator acknowledged two services, one of
    them an endpoint with a baseline of ten samples of 100 ms. *)
Definition acknowledged_world : Monitor.World :=
  {| Monitor.stateManager :=
       StateManager.acknowledge "http:https://example.org"
         (StateManager.acknowledge "docker:web" StateManager.empty);
     Monitor.anomalyDetector :=
       match record_all "http:https://example.org" (replicate 10 100%Q)
               (AnomalyDetector.new defaults) with
       | Returned d => d
       | Threw _ => AnomalyDetector.new defaults
       end;
     Monitor.notified := [];
     Monitor.clock := fun n => (Z.of_nat n * 1000)%Z;
     Monitor.reads := 0 |}.

Definition down_result : Monitor.CheckResult :=
  {| Monitor.healthy := false;
     Monitor.responseTime := 0;
     Monitor.error := Some "exited" |}.

Definition slow_result : Monitor.CheckResult :=
  {| Monitor.healthy := true;
     Monitor.responseTime := 400;
     Monitor.error := None |}.

(** The detectors that the constructor, [recordResponseTime] and
    [clearHistory] produce. *)
Inductive recorded : AnomalyDetector.t -> Prop :=
| recorded_new config : recorded (AnomalyDetector.new config)
| recorded_sample serviceId sample d d' :
    recorded d ->
    AnomalyDetector.recordResponseTime serviceId sample d = Returned d' ->
    recorded d'
| recorded_clear serviceId d :
    recorded d -> recorded (AnomalyDetector.clearHistory serviceId d).

(** The detector after five samples of 0 ms. *)
Definition zero_detector : AnomalyDetector.t :=
  match record_all "http:api" (replicate 5 0%Q)
          (AnomalyDetector.new defaults) with
  | Returned d => d
  | Threw _ => AnomalyDetector.new defaults
  end.

(** * Vocabulary of the further properties *)

(** A call of [recordStateChange], with the two clock readings it
    takes. *)
Record Change : Type := mkChange {
  change_id : string;
  change_state : StateManager.Health;
  change_time : Z;
  change_check : Z
}.

Definition run_change (config : Config) (st : StateManager.State)
    (c : Change) : StateManager.State :=
  snd (StateManager.recordStateChange config (change_time c) (change_check c)
         (change_id c) (change_state c) st).

Definition run_changes (config : Config) (changes : list Change)
    (st : StateManager.State) : StateManager.State :=
  foldl (run_change config) st changes.

(** The transitions that a sequence of calls reports for a service,
    oldest first. *)
Definition reported_transitions (serviceId : string) (changes : list Change)
  : list StateManager.Transition :=
  (fun c => {| StateManager.time := change_time c;
               StateManager.state := change_state c |})
  <$> filter (fun c => change_id c = serviceId) changes.

Definition call_time (c : Call) : Z :=
  match c with
  | CallFailure _ _ now => now
  | CallRecovery _ now => now
  end.

Definition call_error (c : Call) : option string :=
  match c with
  | CallFailure _ err _ => err
  | CallRecovery _ _ => None
  end.

(** The failure calls for a service since its last recovery call, oldest
    first. *)
Definition streak (serviceId : string) (calls : list Call) : list Call :=
  foldl (fun acc c =>
           if decide (call_id c = serviceId) then
             if is_failure c then acc ++ [c] else []
           else acc)
    [] calls.





(** A world with another state manager. *)
Definition with_state (w : Monitor.World) (st : StateManager.State)
  : Monitor.World :=
  {| Monitor.stateManager := st;
     Monitor.anomalyDetector := Monitor.anomalyDetector w;
     Monitor.notified := Monitor.notified w;
     Monitor.clock := Monitor.clock w;
     Monitor.reads := Monitor.reads w |}.


(** The detector after ten samples of 100 ms for one endpoint. *)
Definition baseline_detector : AnomalyDetector.t :=
  match record_all "http:api" (replicate 10 100%Q)
          (AnomalyDetector.new defaults) with
  | Returned d => d
  | Threw _ => AnomalyDetector.new defaults
  end.

(** A configuration with a negative sample size. *)
Definition negative_sample_size : Config :=
  {| alerts := None;
     anomaly := Some {| anomaly_enabled := Some true;
                        anomaly_multiplier := None;
                        anomaly_sampleSize := Some (-1)%Z |} |}.

(** What a step of the monitor about one service may change: the failure
    record and the transition log of that service, the number of clock
    readings, and the notifications, to which it may only add. *)
Definition only_touches (serviceId : string) (w w' : Monitor.World) : Prop :=
  Monitor.anomalyDetector w' = Monitor.anomalyDetector w
  ∧ Monitor.clock w' = Monitor.clock w
  ∧ Monitor.reads w ≤ Monitor.reads w'
  ∧ StateManager.acknowledged (Monitor.stateManager w')
    = StateManager.acknowledged (Monitor.stateManager w)
  ∧ StateManager.sslExpiry (Monitor.stateManager w')
    = StateManager.sslExpiry (Monitor.stateManager w)
  ∧ (∀ other, other ≠ serviceId ->
       StateManager.failures (Monitor.stateManager w') !! other
       = StateManager.failures (Monitor.stateManager w) !! other
       ∧ StateManager.flapping (Monitor.stateManager w') !! other
         = StateManager.flapping (Monitor.stateManager w) !! other)
  ∧ ∃ extra, Monitor.notified w' = Monitor.notified w ++ extra
             ∧ length extra ≤ 1
             ∧ Forall (fun n => is_anomaly_alert n = false) extra.

(** ** Vocabulary of the notifier queue *)

(** The texts that a trace asks the notifier to send, in order. *)
Definition requested (evs : list TelegramNotifier.Event) : list string :=
  omap (fun ev =>
          match ev with
          | TelegramNotifier.Send text _ => Some text
          | _ => None
          end) evs.

(** The answers of the transport in a trace, in order: [true] for a
    delivery, [false] for a failure. *)
Definition outcomes (evs : list TelegramNotifier.Event) : list bool :=
  omap (fun ev =>
          match ev with
          | TelegramNotifier.Delivered _ _ _ => Some true
          | TelegramNotifier.Failed _ _ => Some false
          | _ => None
          end) evs.

(** The events that resume a suspended activation. *)
Definition continuation (ev : TelegramNotifier.Event) : bool :=
  match ev with
  | TelegramNotifier.Send _ _ => false
  | _ => true
  end.

(** The entries taken off the queue whose transport call has not
    answered. *)
Definition in_flight (r : TelegramNotifier.Run) : list TelegramNotifier.Entry :=
  omap (fun a =>
          match a with
          | TelegramNotifier.AwaitSend e => Some e
          | TelegramNotifier.AwaitSleep _ => None
          end) (TelegramNotifier.suspended r).

Definition waiting (r : TelegramNotifier.Run) : list TelegramNotifier.Entry :=
  TelegramNotifier.messageQueue (TelegramNotifier.notifier r).

(** Nothing is queued, nothing is suspended and the flag is down. *)
Definition idle (r : TelegramNotifier.Run) : Prop :=
  TelegramNotifier.suspended r = [] /\ waiting r = [] /\
  TelegramNotifier.isProcessingQueue (TelegramNotifier.notifier r) = false.

(** What every run of the notifier keeps. *)
Definition queue_inv (r : TelegramNotifier.Run) : Prop :=
  TelegramNotifier.uncaught r = 0 /\
  (TelegramNotifier.settled r).*1
    = seq 0 (List.length (TelegramNotifier.settled r)) /\
  TelegramNotifier.promise <$> (in_flight r ++ waiting r)
    = seq (List.length (TelegramNotifier.settled r))
        (List.length (in_flight r ++ waiting r)) /\
  TelegramNotifier.promises r
    = List.length (TelegramNotifier.settled r)
      + List.length (in_flight r ++ waiting r) /\
  List.length (TelegramNotifier.transport r)
    = List.length (TelegramNotifier.settled r) + List.length (in_flight r) /\
  match TelegramNotifier.suspended r with
  | [] =>
      TelegramNotifier.isProcessingQueue (TelegramNotifier.notifier r) = false
      /\ waiting r = []
  | [TelegramNotifier.AwaitSleep ms] =>
      TelegramNotifier.isProcessingQueue (TelegramNotifier.notifier r) = true
      /\ waiting r <> [] /\ (0 < ms)%Q
  | [TelegramNotifier.AwaitSend _] =>
      TelegramNotifier.isProcessingQueue (TelegramNotifier.notifier r) = true
  | _ => False
  end.

(** The work left: two steps for each waiting entry, one for an entry in
    flight. *)
Definition work_left (r : TelegramNotifier.Run) : nat :=
  2 * List.length (waiting r) + List.length (in_flight r).

(** ** Vocabulary of the schedule and duration texts *)

(** [Number.isSafeInteger]: the integers that a JavaScript number holds
    exactly. *)
Definition safe_integer (n : Z) : Prop := (Z.abs n < 2 ^ 53)%Z.

(** * Properties *)

(** ** Sorting *)

Section Sorting.

Lemma Qle_bool_false (x y : Q) : Qle_bool x y = false -> (y < x)%Q.
Proof.
  intros H. apply Qnot_le_lt. intros Hle.
  apply Qle_bool_iff in Hle. congruence.
Qed.

Lemma sort_insert_perm (x : Q) (l : list Q) :
  Permutation (x :: l) (sort_insert x l).
Proof.
  induction l as [|y l IH]; simpl; [done|].
  destruct (Qle_bool y x); [|done].
  rewrite perm_swap. by constructor.
Qed.

Lemma sort_numeric_perm (l : list Q) : Permutation l (sort_numeric l).
Proof.
  induction l as [|x l IH]; simpl; [done|].
  rewrite <- sort_insert_perm. by constructor.
Qed.

Lemma sort_insert_sorted (x : Q) (l : list Q) :
  Sorted Qle l -> Sorted Qle (sort_insert x l).
Proof.
  induction l as [|y l IH]; intros Hs; simpl.
  - repeat constructor.
  - destruct (Qle_bool y x) eqn:Hyx.
    + apply Sorted_inv in Hs as [Hs Hhd].
      constructor; [by apply IH|].
      destruct l as [|z l]; simpl.
      * constructor. by apply Qle_bool_iff.
      * destruct (Qle_bool z x); constructor.
        -- by inversion Hhd.
        -- by apply Qle_bool_iff.
    + constructor; [done|]. constructor.
      apply Qlt_le_weak. by apply Qle_bool_false.
Qed.

Lemma sort_numeric_sorted (l : list Q) : Sorted Qle (sort_numeric l).
Proof.
  induction l as [|x l IH]; simpl; [constructor|].
  by apply sort_insert_sorted.
Qed.

Lemma sort_numeric_length (l : list Q) :
  length (sort_numeric l) = length l.
Proof. symmetry. apply Permutation_length, sort_numeric_perm. Qed.

Lemma numbers_Some (vs : list Q) : numbers (Some <$> vs) = Some vs.
Proof. induction vs as [|v vs IH]; csimpl; [done|]. by rewrite IH. Qed.

Lemma numbers_inv (l : list (option Q)) (vs : list Q) :
  numbers l = Some vs -> l = Some <$> vs.
Proof.
  revert vs. induction l as [|[q|] l IH]; intros vs H; simpl in *.
  - by injection H as <-.
  - destruct (numbers l) as [qs|]; [|done].
    injection H as <-. csimpl. f_equal. by apply IH.
  - done.
Qed.

End Sorting.

(** ** The ring buffer *)

Section RingBuffer.
Import CircularBuffer.

Lemma new_Some (sz : Z) (b : t) :
  new sz = Some b ->
  (0 < sz)%Z ∧ b = mk (Z.to_nat sz) (replicate (Z.to_nat sz) None) 0 0.
Proof.
  unfold new. destruct (Z.leb_spec sz 0); [done|].
  intros [= <-]. split; [lia|done].
Qed.

Lemma wf_new (sz : Z) (b : t) : new sz = Some b -> wf b.
Proof.
  intros [Hsz ->]%new_Some. unfold wf; simpl.
  rewrite length_replicate. lia.
Qed.

Lemma wf_push (v : option Q) (b : t) : wf b -> wf (push v b).
Proof.
  intros (Hsz & Hlen & Hidx & Hcnt & Hpre). unfold wf, push, array_set; simpl.
  rewrite decide_True by lia. rewrite length_insert.
  pose proof (Nat.mod_upper_bound (index b + 1) (size b)) as Hmod.
  split; [done|]. split; [done|]. split; [lia|].
  destruct (Nat.ltb_spec (count b) (size b)) as [Hlt|Hge].
  - split; [lia|]. intros Hlt'. rewrite Hpre by lia.
    apply Nat.mod_small. lia.
  - split; [lia|]. lia.
Qed.

Lemma wf_clear (b : t) : wf b -> wf (clear b).
Proof.
  intros (Hsz & _). unfold wf, clear; simpl.
  rewrite length_replicate. lia.
Qed.

Lemma reachable_wf (b : t) : reachable b -> wf b.
Proof.
  induction 1; eauto using wf_new, wf_push, wf_clear.
Qed.

Lemma slice_0 (arr : list (option Q)) (n : nat) : slice arr 0 n = take n arr.
Proof. unfold slice. by rewrite drop_0, Nat.sub_0_r. Qed.

Lemma getAll_length (b : t) : wf b -> List.length (getAll b) = count b.
Proof.
  intros (Hsz & Hlen & Hidx & Hcnt & Hpre). unfold getAll.
  rewrite !slice_0.
  destruct (Nat.ltb_spec (count b) (size b)).
  - rewrite length_take. lia.
  - rewrite length_app, length_drop, length_take. lia.
Qed.

Lemma getAll_empty (b : t) : wf b -> count b = 0 -> getAll b = [].
Proof.
  intros Hwf H0. apply nil_length_inv. by rewrite getAll_length.
Qed.

(** What [push] does to the chronological read-out: it appends, and
    drops the oldest value once the buffer is full. *)
Lemma getAll_push (v : option Q) (b : t) :
  wf b ->
  getAll (push v b) =
    if count b <? size b then getAll b ++ [v]
    else drop 1 (getAll b) ++ [v].
Proof.
  intros (Hsz & Hlen & Hidx & Hcnt & Hpre).
  unfold getAll, push, array_set; simpl. rewrite !slice_0.
  rewrite decide_True by lia.
  rewrite insert_take_drop by lia.
  destruct (Nat.ltb_spec (count b) (size b)) as [Hlt|Hge].
  - rewrite Hpre by done.
    destruct (Nat.ltb_spec (count b + 1) (size b)) as [Hlt'|Hge'].
    + rewrite take_app_ge by (rewrite length_take; lia).
      rewrite length_take, Nat.min_l by lia.
      replace (count b + 1 - count b) with 1 by lia. done.
    + assert (count b + 1 = size b) as Heq by lia.
      rewrite Heq, Nat.Div0.mod_same. simpl. rewrite app_nil_r.
      rewrite (drop_ge _ (S (count b))) by lia. done.
  - assert (count b = size b) as Hfull by lia.
    destruct (Nat.ltb_spec (count b) (size b)) as [?|_]; [lia|].
    destruct (decide (index b + 1 = size b)) as [Hlast|Hmid].
    + rewrite Hlast, Nat.Div0.mod_same. simpl. rewrite app_nil_r.
      rewrite (drop_ge _ (S (index b))) by lia.
      rewrite (drop_S _ (default None (buffer b !! index b)) (index b)).
      2:{ destruct (lookup_lt_is_Some_2 (buffer b) (index b)) as [x Hx];
            [lia|]. by rewrite Hx. }
      rewrite (drop_ge _ (S (index b))) by lia. done.
    + rewrite Nat.mod_small by lia.
      replace (index b + 1) with (S (index b)) by lia.
      rewrite drop_app_ge by (rewrite length_take; lia).
      rewrite length_take, Nat.min_l by lia.
      replace (S (index b) - index b) with 1 by lia. simpl. rewrite drop_0.
      rewrite take_app_ge by (rewrite length_take; lia).
      rewrite length_take, Nat.min_l by lia.
      replace (S (index b) - index b) with 1 by lia. simpl.
      rewrite (drop_S _ (default None (buffer b !! index b)) (index b)).
      2:{ destruct (lookup_lt_is_Some_2 (buffer b) (index b)) as [x Hx];
            [lia|]. by rewrite Hx. }
      simpl. rewrite drop_0. by rewrite <- app_assoc.
Qed.

Lemma count_push (v : option Q) (b : t) :
  count (push v b) = if count b <? size b then count b + 1 else count b.
Proof. done. Qed.

Lemma pushes_wf (values : list (option Q)) (b : t) :
  wf b -> wf (pushes values b).
Proof.
  revert b. induction values as [|v values IH]; intros b Hwf; simpl; [done|].
  apply IH. by apply wf_push.
Qed.

Lemma pushes_size (values : list (option Q)) (b : t) :
  size (pushes values b) = size b.
Proof.
  revert b. induction values as [|v values IH]; intros b; simpl; [done|].
  by rewrite IH.
Qed.

(** Pushing what fits appends it. *)
Lemma getAll_pushes_fit (values : list (option Q)) (b : t) :
  wf b -> count b + List.length values ≤ size b ->
  getAll (pushes values b) = getAll b ++ values.
Proof.
  revert b. induction values as [|v values IH]; intros b Hwf Hfit; simpl.
  - by rewrite app_nil_r.
  - simpl in Hfit. rewrite IH.
    + rewrite getAll_push by done.
      destruct (Nat.ltb_spec (count b) (size b)); [|lia].
      by rewrite <- app_assoc.
    + by apply wf_push.
    + rewrite count_push. change (size (push v b)) with (size b).
      destruct (Nat.ltb_spec (count b) (size b)); lia.
Qed.

(** Restoring a serialised buffer gives a buffer of the same capacity
    that reads out the same values. *)
Lemma fromJSON_toJSON (b : t) :
  wf b ->
  ∃ b', fromJSON (toJSON b) = Some b' ∧ wf b' ∧ size b' = size b
        ∧ getAll b' = getAll b.
Proof.
  intros Hwf. pose proof Hwf as (Hsz & Hlen & Hidx & Hcnt & Hpre).
  unfold fromJSON, toJSON; simpl.
  destruct (new (Z.of_nat (size b))) as [b0|] eqn:Hnew.
  2:{ unfold new in Hnew. destruct (Z.leb_spec (Z.of_nat (size b)) 0);
        [lia|done]. }
  simpl. eexists. split; [done|].
  pose proof (wf_new _ _ Hnew) as Hwf0.
  apply new_Some in Hnew as [_ ->]. rewrite Nat2Z.id in *.
  fold (pushes (getAll b) (mk (size b) (replicate (size b) None) 0 0)).
  split; [by apply pushes_wf|]. split; [by rewrite pushes_size|].
  rewrite getAll_pushes_fit; [|done|].
  - rewrite (getAll_empty (mk _ _ _ _)); done.
  - simpl. rewrite getAll_length; done.
Qed.

(** The read-outs look at the values only. *)
Lemma readouts_ext (b b' : t) :
  getAll b' = getAll b ->
  getMedian b' = getMedian b ∧ getAverage b' = getAverage b
  ∧ getMin b' = getMin b ∧ getMax b' = getMax b.
Proof.
  intros H. unfold getMedian, getAverage, getMin, getMax. by rewrite H.
Qed.

End RingBuffer.

Section RingBufferClaims.
Import CircularBuffer.

Lemma fed_reachable (b : t) : fed b -> reachable b.
Proof. induction 1; eauto using reachable. Qed.

Lemma fed_numbers (b : t) : fed b -> ∃ vs, getAll b = Some <$> vs.
Proof.
  induction 1 as [sz b Hnew|q b Hfed [vs IH]|b Hfed _].
  - exists []. apply getAll_empty; [by eapply wf_new|].
    by apply new_Some in Hnew as [_ ->].
  - rewrite getAll_push by by apply reachable_wf, fed_reachable.
    rewrite IH. destruct (count b <? size b).
    + exists (vs ++ [q]). by rewrite fmap_app.
    + exists (drop 1 vs ++ [q]). by rewrite fmap_app, fmap_drop.
  - exists []. apply getAll_empty; [|done].
    by apply wf_clear, reachable_wf, fed_reachable.
Qed.


(** C8. Ring buffer median.  For every empty buffer (one built by the
    constructor, [push] and [clear] that holds no element), [getMedian],
    [getAverage], [getMin] and [getMax] return 0.  A buffer into which
    numbers were pushed reads out numbers; and when [getAll] reads out the
    numbers [vs], not none, [getMedian] works on a sorted permutation of
    them: for an odd count it returns the single middle element of the
    sorted values, for an even count the average of the two middle ones.
    So the median of the contents 100, 150, 120 is 120, of 1, 2, 3, 4 it
    is 2.5, and of 100, 100, 105, 98, 102, 5000 it is 101, not 742. *)
Theorem ring_buffer_median (b : t) :
  (reachable b -> length b = 0 ->
   getMedian b = Some 0%Q ∧ getAverage b = Some 0%Q
   ∧ getMin b = Some 0%Q ∧ getMax b = Some 0%Q)
  ∧ (fed b -> ∃ vs, numbers (getAll b) = Some vs)
  ∧ (∀ vs, numbers (getAll b) = Some vs -> vs ≠ [] ->
       let sorted := sort_numeric vs in
       let mid := List.length sorted / 2 in
       Sorted Qle sorted ∧ Permutation vs sorted
       ∧ (List.length vs mod 2 = 1 ->
          ∃ x, sorted !! mid = Some x ∧ getMedian b = Some x)
       ∧ (List.length vs mod 2 = 0 ->
          ∃ x y, sorted !! (mid - 1) = Some x ∧ sorted !! mid = Some y
                 ∧ getMedian b = Some ((x + y) / 2)%Q))
  ∧ (getAll b = [Some 100; Some 150; Some 120]%Q ->
     getMedian b = Some 120%Q)
  ∧ (getAll b = [Some 1; Some 2; Some 3; Some 4]%Q ->
     ∃ m, getMedian b = Some m ∧ (m == 5 # 2)%Q)
  ∧ (getAll b
     = [Some 100; Some 100; Some 105; Some 98; Some 102; Some 5000]%Q ->
     ∃ m, getMedian b = Some m ∧ (m == 101)%Q ∧ ¬ (m == 742)%Q).
Proof.
  split; [|split; [|split; [|split; [|split]]]].
  - intros Hr H0. unfold getMedian, getAverage, getMin, getMax.
    rewrite getAll_empty; [done|by apply reachable_wf|done].
  - intros Hfed. destruct (fed_numbers b Hfed) as [vs Hvs].
    exists vs. rewrite Hvs. apply numbers_Some.
  - intros vs Hvs Hne sorted mid.
    split; [apply sort_numeric_sorted|]. split; [apply sort_numeric_perm|].
    assert (List.length sorted = List.length vs) as Hlen
      by apply sort_numeric_length.
    assert ((List.length sorted =? 0) = false) as Hne'.
    { apply Nat.eqb_neq. rewrite Hlen. destruct vs; [done|simpl; lia]. }
    assert (mid < List.length sorted) as Hmid.
    { apply Nat.div_lt; [|lia]. apply Nat.eqb_neq in Hne'. lia. }
    destruct (lookup_lt_is_Some_2 sorted mid) as [y Hy]; [done|].
    split.
    + intros Hodd. unfold getMedian. rewrite Hvs.
      cbn -[Nat.div Nat.modulo]. fold sorted.
      rewrite Hne', Hlen, Hodd. cbn -[Nat.div Nat.modulo].
      rewrite <- Hlen. fold mid. eauto.
    + intros Heven. unfold getMedian. rewrite Hvs.
      cbn -[Nat.div Nat.modulo]. fold sorted.
      rewrite Hne', Hlen, Heven. cbn -[Nat.div Nat.modulo].
      rewrite <- Hlen. fold mid.
      destruct (lookup_lt_is_Some_2 sorted (mid - 1)) as [x Hx]; [lia|].
      exists x, y. by rewrite Hx, Hy.
  - intros Hall. unfold getMedian. by rewrite Hall.
  - intros Hall. unfold getMedian. rewrite Hall. simpl.
    eexists. split; [done|]. done.
  - intros Hall. unfold getMedian. rewrite Hall. simpl.
    eexists. split; [done|]. split; [done|]. by intros [=].
Qed.

Lemma ring_buffer_median_witness :
  getMedian buffer_100_150_120 = Some 120%Q.
Proof.
  apply (ring_buffer_median buffer_100_150_120). reflexivity.
Defined.

End RingBufferClaims.

(** ** Persistence *)

Section Persistence.
Import StateManager.

Lemma map_of_entries_list_to_map {V} (entries : list (string * V)) :
  map_of_entries entries = list_to_map (reverse entries).
Proof.
  unfold map_of_entries.
  induction entries as [|e entries IH] using rev_ind; [done|].
  rewrite foldl_app, reverse_app. simpl. by rewrite IH.
Qed.

(** [new Map(Array.from(m.entries()))] is [m]. *)
Lemma map_of_entries_to_list {V} (m : gmap string V) :
  map_of_entries (map_to_list m) = m.
Proof.
  rewrite map_of_entries_list_to_map.
  rewrite <- (list_to_map_to_list m) at 2.
  apply list_to_map_proper.
  - rewrite fmap_reverse, reverse_Permutation. apply NoDup_fst_map_to_list.
  - apply reverse_Permutation.
Qed.

Lemma load_save (statePath : string) (now : Z) (st st0 : State)
    (disk : Disk) :
  writable disk = true ->
  load statePath (save statePath now st disk) st0 = st.
Proof.
  intros Hw. unfold load, save. rewrite Hw. simpl.
  rewrite lookup_insert_eq. simpl.
  rewrite !map_of_entries_to_list, list_to_set_elements_L.
  by destruct st.
Qed.

End Persistence.

Section RoundTrip.
Import CircularBuffer.

(** C9. Serialization round trip.  For every buffer [b] built by the
    constructor, [push] and [clear] (with any capacity and any number of
    pushes, wrapped around or not), [fromJSON (toJSON b)] is a buffer of
    the same capacity that reads out the same values, hence the same
    median, mean, minimum and maximum.  For every state of the state
    manager, when the write of [save] succeeds, a fresh state manager
    constructed on the saved file holds the same failures, transition
    logs, acknowledged set and TLS-expiry cache, and so does any state
    manager that loads the file. *)
Theorem serialization_round_trip (b : t) (Hb : reachable b)
    (statePath : string) (now : Z) (st : StateManager.State)
    (disk : StateManager.Disk) (Hw : StateManager.writable disk = true) :
  (∃ b', fromJSON (toJSON b) = Some b'
         ∧ size b' = size b ∧ getAll b' = getAll b
         ∧ getMedian b' = getMedian b ∧ getAverage b' = getAverage b
         ∧ getMin b' = getMin b ∧ getMax b' = getMax b)
  ∧ StateManager.new statePath (StateManager.save statePath now st disk) = st
  ∧ (∀ st0, StateManager.load statePath
              (StateManager.save statePath now st disk) st0 = st).
Proof.
  split; [|split; [by apply load_save|by intros; apply load_save]].
  destruct (fromJSON_toJSON b) as (b' & Hb' & _ & Hsize & Hall);
    [by apply reachable_wf|].
  exists b'. split; [done|]. split; [done|]. split; [done|].
  by apply readouts_ext.
Qed.

Lemma serialization_round_trip_witness :
  (∃ b', fromJSON (toJSON buffer_wrapped) = Some b'
         ∧ size b' = 3 ∧ getAll b' = [Some 3%Q; Some 4%Q; Some 5%Q])
  ∧ StateManager.new "state.json"
      (StateManager.save "state.json" 0 failing_state empty_disk)
    = failing_state.
Proof.
  assert (reachable buffer_wrapped) as Hb.
  { unfold buffer_wrapped, pushes; simpl.
    repeat apply reachable_push. by apply (reachable_new 3). }
  destruct (serialization_round_trip buffer_wrapped Hb "state.json" 0
              failing_state empty_disk eq_refl)
    as [(b' & Hb' & Hsize & Hall & _) [Hst _]].
  split; [|exact Hst]. exists b'. split; [done|]. split; done.
Defined.

End RoundTrip.

(** ** The state manager *)

Section StateManagerClaims.
Import StateManager.



(** C7. Recovery contract.  With no record for [serviceId],
    [recordRecovery] returns null and the state is the one it was given.
    With a record, it returns [downtimeDuration = now - firstSeen] and
    [failuresSeen = consecutiveFailures] and deletes the record: no record
    is left for [serviceId], and nothing else changes. *)
Theorem recordRecovery_contract (now : Z) (serviceId : string) (st : State) :
  match failures st !! serviceId with
  | None => recordRecovery now serviceId st = (None, st)
  | Some r =>
      ∃ info st',
        recordRecovery now serviceId st = (Some info, st')
        ∧ downtimeDuration info = (now - firstSeen r)%Z
        ∧ failuresSeen info = consecutiveFailures r
        ∧ failures st' !! serviceId = None
        ∧ (∀ other, other ≠ serviceId ->
             failures st' !! other = failures st !! other)
        ∧ flapping st' = flapping st
        ∧ acknowledged st' = acknowledged st
        ∧ sslExpiry st' = sslExpiry st
  end.
Proof.
  unfold recordRecovery.
  destruct (failures st !! serviceId) as [r|] eqn:Hr; [|done].
  eexists _, _. split; [done|]. simpl.
  rewrite lookup_delete_eq. repeat split; try done.
  intros other Hne. by rewrite lookup_delete_ne.
Qed.

Lemma run_call_lookup (config : Config) (c : Call) (st : State)
    (serviceId : string) :
  is_Some (failures (run_call config st c) !! serviceId)
  <-> if decide (call_id c = serviceId) then is_failure c = true
      else is_Some (failures st !! serviceId).
Proof.
  destruct c as [id err now|id now]; simpl.
  - unfold recordFailure.
    destruct (decide (id = serviceId)) as [->|Hne].
    + destruct (failures st !! serviceId) as [r|]; simpl.
      * destruct (Qle_bool _ _); simpl; rewrite lookup_insert_eq;
          split; eauto.
      * rewrite lookup_insert_eq. split; eauto.
    + destruct (failures st !! id) as [r|]; simpl.
      * destruct (Qle_bool _ _); simpl; rewrite !lookup_insert_ne by done;
          done.
      * by rewrite lookup_insert_ne.
  - unfold recordRecovery.
    destruct (decide (id = serviceId)) as [->|Hne].
    + destruct (failures st !! serviceId) as [r|] eqn:Hr; simpl.
      * rewrite lookup_delete_eq. split; [by intros []|done].
      * rewrite Hr. split; [by intros []|done].
    + destruct (failures st !! id) as [r|]; simpl; [|done].
      by rewrite lookup_delete_ne.
Qed.

Lemma run_calls_lookup (config : Config) (calls : list Call) (st : State)
    (serviceId : string) :
  is_Some (failures (run_calls config calls st) !! serviceId)
  <-> match last_call_for serviceId calls with
      | Some c => is_failure c = true
      | None => is_Some (failures st !! serviceId)
      end.
Proof.
  revert st. induction calls as [|c calls IH]; intros st; [done|].
  unfold run_calls in *; simpl. rewrite IH.
  unfold last_call_for. rewrite filter_cons.
  pose proof (run_call_lookup config c st serviceId) as Hc.
  destruct (decide (call_id c = serviceId)) as [Heq|Hne].
  - rewrite last_cons.
    by destruct (last (filter _ calls)).
  - by destruct (last (filter _ calls)).
Qed.

(** C2. Failure-record existence invariant.  After any finite sequence
    of [recordFailure] and [recordRecovery] calls on the empty state, a
    record exists for [serviceId] exactly when the most recent call for
    that id was a [recordFailure]; and the listing of the failures names
    every service id at most once. *)
Theorem failure_record_exists_iff (config : Config) (calls : list Call)
    (serviceId : string) :
  let st := run_calls config calls empty in
  (is_Some (getFailure serviceId st)
   <-> ∃ c, last_call_for serviceId calls = Some c ∧ is_failure c = true)
  ∧ NoDup (getAllFailures st).*1.
Proof.
  intros st. split; [|apply NoDup_fst_map_to_list].
  unfold getFailure, st. rewrite run_calls_lookup.
  destruct (last_call_for serviceId calls) as [c|].
  - split; [by eauto|]. by intros (c' & [= <-] & Hc).
  - simpl. rewrite lookup_empty. split; [by intros []|].
    by intros (c' & [=] & _).
Qed.

(** The scenario of the specification: a failure at 0 min alerts, one
    at 5 min is suppressed, one at 31 min alerts again, and the recovery
    at 32 min reports 32 minutes of downtime and 3 failures. *)
Example cooldown_scenario :
  let '(a1, st1) :=
    recordFailure defaults 0 "docker:web" (Some "exited") empty in
  let '(a2, st2) :=
    recordFailure defaults 300000 "docker:web" (Some "exited") st1 in
  let '(a3, st3) :=
    recordFailure defaults 1860000 "docker:web" (Some "exited") st2 in
  let '(info, st4) := recordRecovery 1920000 "docker:web" st3 in
  (a1, a2, a3) = (first_failure, suppressed, ongoing_failure)
  ∧ info = Some {| downtimeDuration := 1920000; failuresSeen := 3;
                   recovery_firstSeen := 0 |}
  ∧ getFailure "docker:web" st4 = None.
Proof. by vm_compute. Qed.

End StateManagerClaims.

(** How the code agrees with the predicate of the specification: from a
    threshold of 3 on. *)
Lemma isFlapping_from_three (config : Config) (now : Z) (serviceId : string)
    (st : StateManager.State) :
  let threshold := or_default (alerts_field flappingThreshold config) 3 in
  let window := or_default (alerts_field flappingWindowMinutes config) 10 in
  (3 <= threshold)%Q ->
  StateManager.isFlapping config now serviceId st
  = flapping_spec threshold window now
      (StateManager.transitions_of serviceId st).
Proof.
  intros threshold window H3. unfold StateManager.isFlapping, flapping_spec.
  fold threshold window.
  assert (∀ t, StateManager.in_window now (window * 60 * 1000) t
               = negb (Qle_bool (window * 60000)
                         (inject_Z (now - StateManager.time t)))) as Hwin.
  { intros t. unfold StateManager.in_window. f_equal.
    apply eq_true_iff_eq. rewrite !Qle_bool_iff.
    assert (window * 60 * 1000 == window * 60000)%Q as -> by ring. done. }
  rewrite (List.filter_ext _ _ Hwin).
  set (ts := StateManager.transitions_of serviceId st).
  destruct (Nat.ltb_spec (length ts) 3) as [Hlt|Hge]; [|done].
  symmetry. apply not_true_is_false. rewrite Qle_bool_iff. intros Hle.
  pose proof (List.filter_length_le
    (fun t => negb (Qle_bool (window * 60000)
                      (inject_Z (now - StateManager.time t)))) ts) as Hfl.
  set (n := length (List.filter _ ts)) in *.
  assert (inject_Z (Z.of_nat n) <= inject_Z 2)%Q as Hn.
  { rewrite <- Zle_Qle. unfold base.length in *. lia. }
  change (inject_Z 2) with 2%Q in Hn. lra.
Qed.

(** With the defaults, three alternating transitions inside the window
    make a service flapping and two do not. *)
Lemma isFlapping_defaults :
  StateManager.isFlapping defaults 180000 "docker:web" three_transitions = true
  ∧ StateManager.isFlapping defaults 180000 "docker:web" two_transitions
    = false.
Proof. by vm_compute. Qed.

(** C3. Flapping predicate, at a threshold of 2.  The configuration
    [threshold_two] sets [flappingThreshold] to 2 and the window to 10
    minutes; two transitions were recorded for the service, both inside
    the window, so that the predicate of the specification holds; and
    [isFlapping] answers false. *)
Theorem isFlapping_threshold_two :
  alerts_field flappingThreshold threshold_two = Some 2%Q
  ∧ alerts_field flappingWindowMinutes threshold_two = Some 10%Q
  ∧ length (StateManager.transitions_of "docker:web" two_transitions) = 2
  ∧ flapping_spec 2 10 120000
      (StateManager.transitions_of "docker:web" two_transitions) = true
  ∧ StateManager.isFlapping threshold_two 120000 "docker:web" two_transitions
    = false.
Proof. by vm_compute. Qed.

(** ** The anomaly detector *)

Section AnomalyClaims.
Import AnomalyDetector.

Lemma js_gt_lt (a b : Q) : js_gt a b = true <-> (b < a)%Q.
Proof.
  unfold js_gt. rewrite negb_true_iff. split.
  - apply Qle_bool_false.
  - intros Hlt. apply not_true_is_false. rewrite Qle_bool_iff.
    by apply Qlt_not_le.
Qed.

Lemma average_defined (b : CircularBuffer.t) (vs : list Q) :
  numbers (CircularBuffer.getAll b) = Some vs ->
  is_Some (CircularBuffer.getAverage b).
Proof.
  intros H. unfold CircularBuffer.getAverage. rewrite H. simpl.
  by destruct (_ =? 0).
Qed.

Lemma median_numbers (b : CircularBuffer.t) (m : Q) :
  CircularBuffer.getMedian b = Some m ->
  ∃ vs, numbers (CircularBuffer.getAll b) = Some vs.
Proof.
  unfold CircularBuffer.getMedian.
  destruct (numbers (CircularBuffer.getAll b)) as [vs|]; [eauto|done].
Qed.

Lemma checkAnomaly_checked (d : t) (serviceId : string) (responseTime : Q)
    (b : CircularBuffer.t) (median average : Q) :
  enabled d = true -> responseTimes d !! serviceId = Some b ->
  5 ≤ CircularBuffer.length b ->
  CircularBuffer.getMedian b = Some median ->
  CircularBuffer.getAverage b = Some average ->
  checkAnomaly serviceId responseTime d
  = Some (Checked
      {| report_isAnomaly := js_gt responseTime (median * multiplier d);
         report_responseTime := responseTime;
         report_median := median;
         report_average := average;
         report_threshold := (median * multiplier d)%Q;
         report_multiplier := multiplier d;
         report_deviation := js_div responseTime median;
         report_samples := CircularBuffer.length b |}).
Proof.
  intros Hen Hb H5 Hm Ha. unfold checkAnomaly. rewrite Hen, Hb. simpl.
  destruct (Nat.ltb_spec (CircularBuffer.length b) 5); [lia|].
  by rewrite Hm, Ha.
Qed.




(** C10. Zero median.  With detection enabled and at least 5 samples
    whose median is 0, [checkAnomaly] still returns a report: its
    threshold is 0, so [isAnomaly] is [responseTime > 0], and its
    deviation, [responseTime / 0], is not a finite number.  With five
    samples of 0, a response time of 7 is an anomaly of infinite
    deviation and a response time of 0 gives NaN. *)
Theorem checkAnomaly_zero_median (d : t) (serviceId : string)
    (responseTime : Q) (b : CircularBuffer.t) (median : Q)
    (Hen : enabled d = true)
    (Hb : responseTimes d !! serviceId = Some b)
    (H5 : 5 ≤ CircularBuffer.length b)
    (Hm : CircularBuffer.getMedian b = Some median)
    (H0 : (median == 0)%Q) :
  (∃ r, checkAnomaly serviceId responseTime d = Some (Checked r)
        ∧ (report_threshold r == 0)%Q
        ∧ (report_isAnomaly r = true <-> (0 < responseTime)%Q)
        ∧ is_finite (report_deviation r) = false
        ∧ report_deviation r
          = if Qeq_bool responseTime 0 then NaN
            else if Qle_bool 0 responseTime then PInf else NInf)
  ∧ (∃ d0 r r',
       record_all "http:api" (replicate 5 0%Q) (new defaults) = Returned d0
       ∧ checkAnomaly "http:api" 7 d0 = Some (Checked r)
       ∧ report_isAnomaly r = true ∧ report_deviation r = PInf
       ∧ checkAnomaly "http:api" 0 d0 = Some (Checked r')
       ∧ report_isAnomaly r' = false ∧ report_deviation r' = NaN).
Proof.
  split; [|eexists _, _, _; by vm_compute].
  destruct (median_numbers b median Hm) as [vs Hvs].
  destruct (average_defined b vs Hvs) as [average Ha].
  eexists. split; [by eapply checkAnomaly_checked|]. simpl.
  assert (median * multiplier d == 0)%Q as Hth by (rewrite H0; ring).
  split; [done|]. split.
  - rewrite js_gt_lt. by rewrite Hth.
  - unfold js_div.
    assert (Qeq_bool median 0 = true) as -> by by apply Qeq_bool_iff.
    split; [|done].
    destruct (Qeq_bool responseTime 0); [done|].
    by destruct (Qle_bool 0 responseTime).
Qed.

Lemma checkAnomaly_zero_median_witness :
  ∃ r, checkAnomaly "http:api" 7 zero_detector = Some (Checked r)
       ∧ is_finite (report_deviation r) = false.
Proof.
  destruct (checkAnomaly_zero_median zero_detector "http:api" 7
              (CircularBuffer.mk 20
                 (replicate 5 (Some 0%Q) ++ replicate 15 None) 5 5)
              0%Q eq_refl eq_refl) as [(r & Hr & _ & _ & Hfin & _) _].
  - vm_compute. lia.
  - reflexivity.
  - reflexivity.
  - exists r. by split.
Defined.

End AnomalyClaims.

(** ** The monitor *)

Section MonitorClaims.
Import Monitor.

(** C4, as the code has it.  For a check result whose service id is
    acknowledged, [handleCheckResult] returns at once: the world it
    leaves is the world it was given, with no failure record, transition
    or recovery recorded and no notification sent.  A TLS check of an
    acknowledged id does the same, and an endpoint check of an
    acknowledged id leaves the state manager as it was and sends no
    failure, recovery, flapping, TLS or resource notification. *)
Theorem acknowledged_is_skipped (m : t) (serviceId : string)
    (service : Service) (result : CheckResult) (w : World)
    (Hack : StateManager.isAcknowledged serviceId (stateManager w) = true) :
  handleCheckResult m serviceId service result w = Some (tt, w)
  ∧ (∀ endpoint, "ssl:" +:+ service_url endpoint = serviceId ->
       checkSSLCert m endpoint result w = Some (tt, w))
  ∧ (∀ endpoint w', "http:" +:+ service_url endpoint = serviceId ->
       checkEndpoint m endpoint result w = Some (tt, w') ->
       stateManager w' = stateManager w
       ∧ ∃ extra, notified w' = notified w ++ extra
                  ∧ Forall (fun n => is_anomaly_alert n = true) extra).
Proof.
  assert (∀ service', handleCheckResult m serviceId service' result w
                      = Some (tt, w)) as Hskip.
  { intros service'. destruct w as [st det sent ck k]; simpl in *.
    unfold handleCheckResult, mbind, M_bind, bind, read_state, on_state.
    simpl. by rewrite Hack. }
  split; [apply Hskip|]. split.
  - intros endpoint <-. unfold checkSSLCert. apply Hskip.
  - intros endpoint w' Hid. destruct w as [st det sent ck k]; simpl in *.
    unfold checkEndpoint. cbv zeta. rewrite Hid.
    unfold handleCheckResult, handleAnomaly, mbind, M_bind,
      bind, read_state, read_detector, on_state, set_detector, defined, send,
      mret, M_ret, ret.
    simpl.
    assert (∀ extra : list Notification,
              Forall (fun n => is_anomaly_alert n = true) extra ->
              ∃ extra', sent ++ extra = sent ++ extra'
                        ∧ Forall (fun n => is_anomaly_alert n = true) extra')
      as Hextra by eauto.
    destruct (healthy result).
    + destruct (AnomalyDetector.recordResponseTime serviceId _ _)
        as [d|msg]; simpl.
      * destruct (AnomalyDetector.checkAnomaly serviceId _ d) as [a|];
          [|done].
        destruct (AnomalyDetector.isAnomaly a), (notifier m); simpl;
          rewrite Hack; intros [= <-]; simpl; (split; [done|]).
        -- apply Hextra. by repeat constructor.
        -- exists []. by rewrite app_nil_r.
        -- exists []. by rewrite app_nil_r.
        -- exists []. by rewrite app_nil_r.
      * intros [= <-]. simpl. split; [done|].
        exists []. by rewrite app_nil_r.
    + simpl. rewrite Hack. intros [= <-]. simpl. split; [done|].
      exists []. by rewrite app_nil_r.
Qed.

Lemma acknowledged_is_skipped_witness :
  handleCheckResult loud_monitor "docker:web" (ServiceConfig "web" "")
    down_result acknowledged_world
  = Some (tt, acknowledged_world).
Proof.
  apply (acknowledged_is_skipped loud_monitor "docker:web"
           (ServiceConfig "web" "") down_result acknowledged_world).
  reflexivity.
Defined.

(** C4, as the specification has it, fails twice.  The service
    "docker:web" is acknowledged and has no failure record; an unhealthy
    result for it is processed and still no failure record and no
    transition exist, where the same result for the service when it is
    not acknowledged records both.  And the endpoint
    "http:https://example.org" is acknowledged; a healthy but slow
    response of it sends an anomaly alert. *)
Lemma acknowledged_counterexample :
  StateManager.isAcknowledged "docker:web" (stateManager acknowledged_world)
  = true
  ∧ (∃ w', handleCheckResult loud_monitor "docker:web"
             (ServiceConfig "web" "") down_result acknowledged_world
           = Some (tt, w')
           ∧ StateManager.getFailure "docker:web" (stateManager w') = None
           ∧ StateManager.transitions_of "docker:web" (stateManager w') = [])
  ∧ (∃ w', handleCheckResult loud_monitor "docker:web"
             (ServiceConfig "web" "") down_result fresh_world
           = Some (tt, w')
           ∧ is_Some (StateManager.getFailure "docker:web" (stateManager w'))
           ∧ length (StateManager.transitions_of "docker:web"
                       (stateManager w')) = 1)
  ∧ StateManager.isAcknowledged "http:https://example.org"
      (stateManager acknowledged_world) = true
  ∧ (∃ w' anomaly,
       checkEndpoint loud_monitor (ServiceUrl "https://example.org")
         slow_result acknowledged_world = Some (tt, w')
       ∧ notified w'
         = [AnomalyAlert "http:https://example.org"
              (ServiceUrl "https://example.org") anomaly]).
Proof.
  split; [by vm_compute|]. split.
  { eexists. split; [by vm_compute|]. by vm_compute. }
  split.
  { eexists. split; [by vm_compute|]. split; [|by vm_compute].
    vm_compute. eauto. }
  split; [by vm_compute|].
  eexists _, _. by vm_compute.
Qed.

Lemma handleFailure_run (m : t) (serviceId : string) (service : Service)
    (result : CheckResult) (st : StateManager.State)
    (det : AnomalyDetector.t) (sent : list Notification) (ck : nat -> Z)
    (k : nat) :
  let '(action, st2) :=
    StateManager.recordFailure (config m) (ck k) serviceId (error result) st in
  let flapping :=
    StateManager.isFlapping (config m) (ck (S k)) serviceId st2 in
  handleFailure m serviceId service result (mkWorld st det sent ck k)
  = Some (tt,
      mkWorld st2 det
        (sent ++
         if negb (notifier m) then []
         else if flapping then
           [FlappingAlert serviceId service
              (StateManager.getFlappingInfo (config m) (ck (S (S k)))
                 (ck (S (S (S k)))) serviceId st2)]
         else match action with
              | StateManager.suppressed => []
              | _ => [down_alert serviceId service result action]
              end)
        ck
        (if flapping then S (S (S (S k))) else S (S k))).
Proof.
  destruct (StateManager.recordFailure _ _ _ _ st) as [action st2] eqn:Hrf.
  unfold handleFailure, recordFailure, isFlapping, getFlappingInfo, mbind,
    M_bind, bind, Date_now, read_state, on_state, send, mret, M_ret, ret.
  simpl. rewrite Hrf. unfold down_alert.
  destruct (notifier m); simpl;
    destruct (StateManager.isFlapping (config m) (ck (S k)) serviceId st2);
    simpl; rewrite ?app_nil_r; try done.
  all: destruct action; simpl; rewrite ?app_nil_r; try done.
  all: destruct (startsWith serviceId "ssl:"); [done|].
  all: by destruct (startsWith serviceId "resource:").
Qed.




End MonitorClaims.

(** * Further properties of the code *)

(** ** The ring buffer as a sliding window *)

Section RingBufferWindow.
Import CircularBuffer.

Lemma pushes_snoc (values : list (option Q)) (v : option Q) (b : t) :
  pushes (values ++ [v]) b = push v (pushes values b).
Proof. unfold pushes. by rewrite foldl_snoc. Qed.

Lemma count_getAll (b : t) : wf b -> count b = List.length (getAll b).
Proof. intros Hwf. by rewrite getAll_length. Qed.

(** The read-out after a run of pushes is the window of the newest
    [size] values over everything the buffer held and was given. *)
Lemma getAll_pushes (values : list (option Q)) (b : t) :
  wf b ->
  getAll (pushes values b)
  = drop (List.length (getAll b ++ values) - size b) (getAll b ++ values).
Proof.
  intros Hwf. induction values as [|v values IH] using rev_ind.
  - simpl. rewrite app_nil_r.
    replace (List.length (getAll b) - size b) with 0; [done|].
    rewrite getAll_length by done. destruct Hwf as (_ & _ & _ & ? & _). lia.
  - rewrite pushes_snoc.
    pose proof (pushes_wf values b Hwf) as Hwf'.
    rewrite getAll_push by done.
    rewrite (count_getAll _ Hwf'), pushes_size, IH.
    set (h := getAll b ++ values).
    replace (getAll b ++ values ++ [v]) with (h ++ [v])
      by (unfold h; by rewrite app_assoc).
    rewrite length_drop, length_app. simpl.
    pose proof Hwf as (Hsz & _).
    destruct (Nat.ltb_spec (List.length h - (List.length h - size b))
                (size b)) as [Hlt|Hge].
    + replace (List.length h - size b) with 0 by lia.
      replace (List.length h + 1 - size b) with 0 by lia. done.
    + rewrite drop_drop.
      replace (List.length h - size b + 1)
        with (List.length h + 1 - size b) by lia.
      rewrite drop_app_le by lia. done.
Qed.

Lemma getAll_pushes_new (N : Z) (b0 : t) (values : list (option Q)) :
  new N = Some b0 ->
  size (pushes values b0) = Z.to_nat N
  ∧ getAll (pushes values b0)
    = drop (List.length values - Z.to_nat N) values.
Proof.
  intros Hnew. pose proof (wf_new _ _ Hnew) as Hwf0.
  assert (getAll b0 = []) as Hempty.
  { apply getAll_empty; [done|]. by apply new_Some in Hnew as [_ ->]. }
  assert (size b0 = Z.to_nat N) as Hsize
    by by apply new_Some in Hnew as [_ ->].
  split; [by rewrite pushes_size|].
  rewrite getAll_pushes by done. by rewrite Hempty, Hsize.
Qed.


(** X1. After [n] pushes into a fresh buffer of capacity [N], the buffer
    holds [min n N] elements, is full exactly when [N <= n], and reads
    out, oldest first, the last [N] values pushed. *)
Theorem fresh_buffer_window (N : Z) (b0 : t) (values : list (option Q))
    (Hnew : new N = Some b0) :
  let b := pushes values b0 in
  let n := List.length values in
  size b = Z.to_nat N
  ∧ length b = Nat.min n (Z.to_nat N)
  ∧ isFull b = (Z.to_nat N <=? n)
  ∧ getAll b = drop (n - Z.to_nat N) values.
Proof.
  intros b n. pose proof (wf_new _ _ Hnew) as Hwf0.
  pose proof (pushes_wf values b0 Hwf0) as Hwf.
  destruct (getAll_pushes_new N b0 values Hnew) as [Hsize Hall].
  fold b n in Hsize, Hall.
  assert (length b = Nat.min n (Z.to_nat N)) as Hcount.
  { unfold length. rewrite (count_getAll b Hwf), Hall, length_drop.
    fold n. apply new_Some in Hnew as [HN _]. lia. }
  split; [done|]. split; [done|]. split; [|done].
  unfold isFull. fold (length b). rewrite Hcount, Hsize.
  apply new_Some in Hnew as [HN _].
  destruct (Nat.leb_spec (Z.to_nat N) n);
    [apply Nat.eqb_eq|apply Nat.eqb_neq]; lia.
Qed.

Lemma fresh_buffer_window_witness :
  getAll buffer_wrapped = [Some 3%Q; Some 4%Q; Some 5%Q].
Proof.
  apply (fresh_buffer_window 3 (mk 3 [None; None; None] 0 0)
           [Some 1%Q; Some 2%Q; Some 3%Q; Some 4%Q; Some 5%Q] eq_refl).
Defined.

(** X2. [clear] makes a reachable buffer behave as a fresh one of the
    same capacity: it is empty, and after any further pushes it reads out
    the last [size] of them, whatever it held before. *)
Theorem clear_forgets (b : t) (values : list (option Q))
    (Hb : reachable b) :
  getAll (clear b) = []
  ∧ length (clear b) = 0
  ∧ size (clear b) = size b
  ∧ getAll (pushes values (clear b))
    = drop (List.length values - size b) values.
Proof.
  pose proof (wf_clear b (reachable_wf b Hb)) as Hwf.
  assert (getAll (clear b) = []) as Hempty by by apply getAll_empty.
  split; [done|]. split; [done|]. split; [done|].
  rewrite getAll_pushes by done. by rewrite Hempty.
Qed.

Lemma clear_forgets_witness :
  getAll (pushes [Some 7%Q] (clear buffer_wrapped)) = [Some 7%Q].
Proof.
  apply (clear_forgets buffer_wrapped [Some 7%Q]).
  unfold buffer_wrapped, pushes; simpl.
  repeat apply reachable_push. by apply (reachable_new 3).
Defined.



End RingBufferWindow.

(** ** Bounds on the statistics of a buffer *)

Section RingBufferBounds.
Import CircularBuffer.








End RingBufferBounds.

(** ** The transition log and the failure record over time *)

Section StateManagerTraces.
Import StateManager.

Lemma transitions_of_recordStateChange (config : Config) (now now' : Z)
    (serviceId other : string) (newState : Health) (st : State) :
  transitions_of other
    (recordStateChange config now now' serviceId newState st).2
  = if decide (serviceId = other) then
      let log := transitions_of other st
                 ++ [{| time := now; state := newState |}] in
      if 10 <? length log then drop 1 log else log
    else transitions_of other st.
Proof.
  unfold recordStateChange, transitions_of; simpl.
  destruct (decide (serviceId = other)) as [->|Hne].
  - by rewrite lookup_insert_eq.
  - by rewrite lookup_insert_ne.
Qed.

Lemma run_changes_snoc (config : Config) (changes : list Change) (c : Change)
    (st : State) :
  run_changes config (changes ++ [c]) st
  = run_change config (run_changes config changes st) c.
Proof. unfold run_changes. by rewrite foldl_snoc. Qed.

(** X5. The transition log of a service after any sequence of
    [recordStateChange] calls on the empty state is the last 10 of the
    transitions reported for that service, oldest first; so it never
    holds more than 10 entries.  The calls touch nothing but the
    transition logs. *)
Theorem transition_log_window (config : Config) (changes : list Change)
    (serviceId : string) :
  let st := run_changes config changes empty in
  let reported := reported_transitions serviceId changes in
  transitions_of serviceId st = drop (length reported - 10) reported
  ∧ length (transitions_of serviceId st) ≤ 10
  ∧ failures st = ∅ ∧ acknowledged st = ∅ ∧ sslExpiry st = ∅.
Proof.
  intros st reported.
  assert (transitions_of serviceId st = drop (length reported - 10) reported)
    as Hlog.
  { unfold st, reported. clear st reported.
    induction changes as [|c changes IH] using rev_ind; [done|].
    rewrite run_changes_snoc. unfold run_change.
    rewrite transitions_of_recordStateChange, IH.
    unfold reported_transitions. rewrite filter_app, fmap_app.
    set (old := (fun c => _) <$> filter _ changes).
    rewrite filter_cons, filter_nil.
    destruct (decide (change_id c = serviceId)) as [Heq|Hne]; simpl.
    - rewrite length_app, length_drop, length_app. simpl.
      destruct (Nat.ltb_spec 10 (length old - (length old - 10) + 1)).
      + rewrite drop_app_le by (rewrite length_drop; lia).
        rewrite drop_drop.
        replace (length old - 10 + 1) with (length old + 1 - 10) by lia.
        by rewrite drop_app_le by lia.
      + rewrite drop_app_le by lia.
        replace (length old + 1 - 10) with (length old - 10) by lia. done.
    - by rewrite app_nil_r. }
  split; [done|]. split; [rewrite Hlog, length_drop; lia|].
  unfold st. clear.
  induction changes as [|c changes IH] using rev_ind; [done|].
  rewrite run_changes_snoc. unfold run_change, recordStateChange. by simpl.
Qed.

Lemma recordFailure_lookup (config : Config) (now : Z)
    (serviceId : string) (err : option string) (st : State) :
  ∃ r', failures (recordFailure config now serviceId err st).2 !! serviceId
        = Some r'
        ∧ error r' = err
        ∧ match failures st !! serviceId with
          | None => firstSeen r' = now ∧ consecutiveFailures r' = 1%Z
          | Some r =>
              firstSeen r' = firstSeen r
              ∧ consecutiveFailures r' = (consecutiveFailures r + 1)%Z
          end.
Proof.
  unfold recordFailure.
  destruct (failures st !! serviceId) as [r|]; simpl.
  - destruct (Qle_bool _ _); simpl; rewrite lookup_insert_eq; eauto.
  - rewrite lookup_insert_eq. eauto.
Qed.

Lemma recordFailure_lookup_ne (config : Config) (now : Z)
    (serviceId other : string) (err : option string) (st : State) :
  other ≠ serviceId ->
  failures (recordFailure config now serviceId err st).2 !! other
  = failures st !! other.
Proof.
  intros Hne. unfold recordFailure.
  destruct (failures st !! serviceId) as [r|]; simpl.
  - destruct (Qle_bool _ _); simpl; rewrite ?lookup_insert_ne by done; done.
  - by rewrite lookup_insert_ne.
Qed.

Lemma recordRecovery_lookup (now : Z) (serviceId other : string)
    (st : State) :
  failures (recordRecovery now serviceId st).2 !! other
  = if decide (other = serviceId) then None else failures st !! other.
Proof.
  unfold recordRecovery.
  destruct (failures st !! serviceId) as [r|] eqn:Hr; simpl.
  - destruct (decide (other = serviceId)) as [->|Hne].
    + by rewrite lookup_delete_eq.
    + by rewrite lookup_delete_ne.
  - destruct (decide (other = serviceId)) as [->|Hne]; done.
Qed.

Lemma run_calls_snoc (config : Config) (calls : list Call) (c : Call)
    (st : State) :
  run_calls config (calls ++ [c]) st
  = run_call config (run_calls config calls st) c.
Proof. unfold run_calls. by rewrite foldl_snoc. Qed.

Lemma streak_snoc (serviceId : string) (calls : list Call) (c : Call) :
  streak serviceId (calls ++ [c])
  = if decide (call_id c = serviceId) then
      if is_failure c then streak serviceId calls ++ [c] else []
    else streak serviceId calls.
Proof. unfold streak. by rewrite foldl_snoc. Qed.

(** X6. After any sequence of [recordFailure] and [recordRecovery] calls
    on the empty state, the failure record of a service describes its
    current streak, the failure calls since its last recovery call: there
    is no record when the streak is empty, and otherwise
    [consecutiveFailures] is the length of the streak, [firstSeen] the
    time of its first call and [error] the error of its last call. *)
Theorem failure_record_counts_streak (config : Config) (calls : list Call)
    (serviceId : string) :
  let st := run_calls config calls empty in
  match streak serviceId calls with
  | [] => getFailure serviceId st = None
  | first :: rest =>
      ∃ r, getFailure serviceId st = Some r
           ∧ consecutiveFailures r = Z.of_nat (length (first :: rest))
           ∧ firstSeen r = call_time first
           ∧ error r = call_error (default first (last rest))
  end.
Proof.
  simpl. unfold getFailure.
  induction calls as [|c calls IH] using rev_ind; [done|].
  rewrite run_calls_snoc, streak_snoc.
  set (st := run_calls config calls empty) in *.
  destruct (decide (call_id c = serviceId)) as [Heq|Hne].
  - destruct c as [id err now|id now]; simpl in Heq; subst id; simpl.
    + destruct (recordFailure_lookup config now serviceId err st)
        as (r' & Hr' & Herr & Hrest).
      destruct (streak serviceId calls) as [|first rest]; simpl.
      * rewrite IH in Hrest. destruct Hrest as [Hfirst Hcount].
        exists r'. by rewrite Hr'.
      * destruct IH as (r & Hr & Hcount & Hfirst & _).
        rewrite Hr in Hrest. destruct Hrest as [Hfirst' Hcount'].
        exists r'. rewrite Hr'. split; [done|].
        split; [rewrite Hcount', Hcount, length_app; simpl; lia|].
        split; [congruence|]. by rewrite last_snoc.
    + rewrite recordRecovery_lookup. by rewrite decide_True.
  - assert (failures (run_call config st c) !! serviceId
            = failures st !! serviceId) as ->; [|done].
    destruct c as [id err now|id now]; simpl in *.
    + by apply recordFailure_lookup_ne.
    + rewrite recordRecovery_lookup. by rewrite decide_False.
Qed.

End StateManagerTraces.

(** ** Cooldown *)

Section Cooldown.
Import StateManager.







(** X8. The listing of the failures grows by one entry when
    [recordFailure] returns [first_failure] and keeps its length
    otherwise; it shrinks by one entry when [recordRecovery] returns a
    recovery and keeps its length when it returns null. *)
Theorem failures_listing_length (config : Config) (now : Z)
    (serviceId : string) (err : option string) (st : State) :
  (let '(action, st') := recordFailure config now serviceId err st in
   length (getAllFailures st')
   = match action with
     | first_failure => S (length (getAllFailures st))
     | _ => length (getAllFailures st)
     end)
  ∧ (let '(info, st') := recordRecovery now serviceId st in
     match info with
     | Some _ => S (length (getAllFailures st')) = length (getAllFailures st)
     | None => length (getAllFailures st') = length (getAllFailures st)
     end).
Proof.
  unfold getAllFailures, recordFailure, recordRecovery.
  destruct (failures st !! serviceId) as [r|] eqn:Hr; simpl.
  - split.
    + destruct (Qle_bool _ _); simpl; rewrite !length_map_to_list.
      * rewrite insert_insert_eq. by erewrite map_size_insert_Some.
      * by erewrite map_size_insert_Some.
    + rewrite !length_map_to_list.
      rewrite map_size_delete_Some by eauto.
      assert (size (failures st) ≠ 0); [|lia].
      intros H0. apply map_size_empty_inv in H0. by rewrite H0 in Hr.
  - split; [|done]. rewrite !length_map_to_list.
    by rewrite map_size_insert_None.
Qed.

End Cooldown.

(** ** Acknowledgement, persistence and flapping read-outs *)

Section StateManagerEdges.
Import StateManager.
#[local] Set Warnings "-clear-no-such-hyp".

Lemma handleCheckResult_skip (m : Monitor.t) (serviceId : string)
    (service : Monitor.Service) (result : Monitor.CheckResult)
    (w : Monitor.World) :
  isAcknowledged serviceId (Monitor.stateManager w) = true ->
  Monitor.handleCheckResult m serviceId service result w = Some (tt, w).
Proof.
  intros Hack. destruct w as [st det sent ck k]; simpl in *.
  unfold Monitor.handleCheckResult, mbind, Monitor.M_bind, Monitor.bind,
    Monitor.read_state, Monitor.on_state.
  simpl. by rewrite Hack.
Qed.

(** X9. Acknowledging and unacknowledging.  After [acknowledge(id)] the
    service is acknowledged and after [unacknowledge(id)] it is not, the
    other services keeping their status; acknowledging twice is
    acknowledging once, and unacknowledging a service that was
    acknowledged from a state in which it was not gives that state back.
    Neither touches the failures, the transition logs or the expiry
    cache.  The effect on the monitor is immediate: the next check result
    of the acknowledged service leaves the world as it is. *)
Theorem acknowledge_toggle (serviceId other : string) (st : State) :
  isAcknowledged serviceId (acknowledge serviceId st) = true
  ∧ isAcknowledged serviceId (unacknowledge serviceId st) = false
  ∧ (other ≠ serviceId ->
     isAcknowledged other (acknowledge serviceId st) = isAcknowledged other st
     ∧ isAcknowledged other (unacknowledge serviceId st)
       = isAcknowledged other st)
  ∧ acknowledge serviceId (acknowledge serviceId st) = acknowledge serviceId st
  ∧ (isAcknowledged serviceId st = false ->
     unacknowledge serviceId (acknowledge serviceId st) = st)
  ∧ failures (acknowledge serviceId st) = failures st
  ∧ flapping (acknowledge serviceId st) = flapping st
  ∧ sslExpiry (acknowledge serviceId st) = sslExpiry st
  ∧ failures (unacknowledge serviceId st) = failures st
  ∧ flapping (unacknowledge serviceId st) = flapping st
  ∧ sslExpiry (unacknowledge serviceId st) = sslExpiry st
  ∧ (∀ m service result w,
       Monitor.handleCheckResult m serviceId service result
         (with_state w (acknowledge serviceId (Monitor.stateManager w)))
       = Some (tt,
           with_state w (acknowledge serviceId (Monitor.stateManager w)))).
Proof.
  unfold isAcknowledged, acknowledge, unacknowledge, set_acknowledged; simpl.
  split; [apply bool_decide_eq_true; set_solver|].
  split; [apply bool_decide_eq_false; set_solver|].
  split.
  { intros Hne. split; apply bool_decide_ext; set_solver. }
  split; [f_equal; set_solver|].
  split.
  { intros Hno%bool_decide_eq_false. destruct st; simpl in *. f_equal.
    set_solver. }
  repeat (split; [done|]).
  intros m service result w. apply handleCheckResult_skip. simpl.
  unfold isAcknowledged; simpl. apply bool_decide_eq_true. set_solver.
Qed.

Lemma acknowledge_toggle_witness :
  unacknowledge "docker:web" (acknowledge "docker:web" empty) = empty.
Proof.
  apply (acknowledge_toggle "docker:web" "docker:db" empty). reflexivity.
Defined.







End StateManagerEdges.

(** ** The anomaly detector over time *)

Section DetectorTraces.
Import AnomalyDetector.







(** X15. The services of a detector do not interfere.  Recording a
    sample for one service leaves the settings of the detector and the
    buffer of every other service as they were, and so every answer of
    [checkAnomaly] about another service.  [clearHistory] does the same,
    and afterwards an enabled detector holds no sample of the cleared
    service. *)
Theorem detector_isolation (d d' : t) (serviceId other : string)
    (sample responseTime : Q)
    (Hrec : recordResponseTime serviceId sample d = Returned d')
    (Hne : other ≠ serviceId) :
  enabled d' = enabled d ∧ multiplier d' = multiplier d
  ∧ sampleSize d' = sampleSize d
  ∧ responseTimes d' !! other = responseTimes d !! other
  ∧ checkAnomaly other responseTime d' = checkAnomaly other responseTime d
  ∧ checkAnomaly other responseTime (clearHistory serviceId d)
    = checkAnomaly other responseTime d
  ∧ (enabled d = true ->
     checkAnomaly serviceId responseTime (clearHistory serviceId d)
     = Some (InsufficientSamples 0 5)).
Proof.
  assert (enabled d' = enabled d ∧ multiplier d' = multiplier d
          ∧ sampleSize d' = sampleSize d
          ∧ responseTimes d' !! other = responseTimes d !! other)
    as (He & Hm & Hs & Hl).
  { unfold recordResponseTime in Hrec.
    destruct (enabled d) eqn:Hen; simpl in Hrec;
      [|injection Hrec as <-; by rewrite Hen].
    destruct (responseTimes d !! serviceId) as [b|].
    - injection Hrec as <-. simpl. by rewrite Hen, lookup_insert_ne.
    - destruct (CircularBuffer.new (sampleSize d)) as [b|]; [|done].
      injection Hrec as <-. simpl. by rewrite Hen, lookup_insert_ne. }
  repeat (split; [done|]).
  split; [by unfold checkAnomaly; rewrite He, Hm, Hl|].
  split.
  - unfold checkAnomaly, clearHistory; simpl. by rewrite lookup_delete_ne.
  - intros Hen. unfold checkAnomaly, clearHistory; simpl.
    by rewrite Hen, lookup_delete_eq.
Qed.

Lemma detector_isolation_witness :
  checkAnomaly "http:other" 400
    (match recordResponseTime "http:api" 100 (new defaults) with
     | Returned d => d
     | Threw _ => new defaults
     end)
  = checkAnomaly "http:other" 400 (new defaults).
Proof.
  destruct (detector_isolation (new defaults)
              (match recordResponseTime "http:api" 100 (new defaults) with
               | Returned d => d
               | Threw _ => new defaults
               end)
              "http:api" "http:other" 100 400 eq_refl)
    as (_ & _ & _ & _ & Hcheck & _); [discriminate|].
  exact Hcheck.
Defined.

(** X16. The verdict in terms of the response time.  When [checkAnomaly]
    returns a report for a response time, it returns one for every
    response time, with the same median, threshold and number of samples;
    if the first is an anomaly, so is every slower one.  With a
    multiplier of at least 1 and a median that is not negative, a
    response time up to the median is no anomaly. *)
Theorem verdict_monotone (d : t) (serviceId : string) (t1 t2 : Q)
    (r1 : Report)
    (Hr1 : checkAnomaly serviceId t1 d = Some (Checked r1)) :
  ∃ r2, checkAnomaly serviceId t2 d = Some (Checked r2)
        ∧ report_median r2 = report_median r1
        ∧ report_threshold r2 = report_threshold r1
        ∧ report_samples r2 = report_samples r1
        ∧ (report_threshold r1 == report_median r1 * multiplier d)%Q
        ∧ ((t1 <= t2)%Q -> report_isAnomaly r1 = true ->
           report_isAnomaly r2 = true)
        ∧ ((1 <= multiplier d)%Q -> (0 <= report_median r1)%Q ->
           (t2 <= report_median r1)%Q -> report_isAnomaly r2 = false).
Proof.
  unfold checkAnomaly in *.
  destruct (enabled d); simpl in *; [|done].
  destruct (responseTimes d !! serviceId) as [b|]; [|done].
  destruct (CircularBuffer.length b <? 5); [done|].
  destruct (CircularBuffer.getMedian b) as [median|]; [|done].
  destruct (CircularBuffer.getAverage b) as [average|]; [|done].
  simpl in *. injection Hr1 as <-. eexists. split; [done|]. simpl.
  repeat (split; [done|]). split.
  - rewrite !js_gt_lt. intros. lra.
  - intros Hm H0 Ht. apply not_true_is_false. rewrite js_gt_lt. nra.
Qed.

Lemma verdict_monotone_witness :
  ∃ r2, checkAnomaly "http:api" 500 baseline_detector = Some (Checked r2)
        ∧ report_isAnomaly r2 = true.
Proof.
  assert (∃ r1, checkAnomaly "http:api" 400 baseline_detector
                = Some (Checked r1) ∧ report_isAnomaly r1 = true)
    as (r1 & Hr1 & Ha1) by (eexists; by vm_compute).
  destruct (verdict_monotone baseline_detector "http:api" 400 500 r1 Hr1)
    as (r2 & Hr2 & _ & _ & _ & _ & Hmono & _).
  exists r2. split; [exact Hr2|]. apply Hmono; [|exact Ha1].
  by vm_compute.
Defined.

End DetectorTraces.

(** ** The snapshot of the anomaly detector *)

Section DetectorSnapshot.
Import AnomalyDetector.





End DetectorSnapshot.

(** ** The monitor, result by result *)

Section MonitorRuns.
Import Monitor.

Lemma handleCheckResult_run (m : t) (serviceId : string) (service : Service)
    (result : CheckResult) (st : StateManager.State)
    (det : AnomalyDetector.t) (sent : list Notification) (ck : nat -> Z)
    (k : nat) :
  StateManager.isAcknowledged serviceId st = false ->
  handleCheckResult m serviceId service result (mkWorld st det sent ck k)
  = match StateManager.failures st !! serviceId with
    | None =>
        if healthy result then Some (tt, mkWorld st det sent ck k)
        else
          handleFailure m serviceId service result
            (mkWorld
               (StateManager.recordStateChange (config m) (ck k) (ck (S k))
                  serviceId StateManager.unhealthy st).2
               det sent ck (S (S k)))
    | Some r =>
        if healthy result then
          Some (tt,
            mkWorld
              (StateManager.clearFlappingHistory serviceId
                 (StateManager.set_failures
                    (StateManager.recordStateChange (config m) (ck k)
                       (ck (S k)) serviceId StateManager.healthy st).2
                    (delete serviceId (StateManager.failures st))))
              det
              (sent ++
               if default false (alerts_field recoveryNotify (config m))
                  && notifier m
               then [RecoveryAlert serviceId service
                       {| StateManager.downtimeDuration :=
                            (ck (S (S k)) - StateManager.firstSeen r)%Z;
                          StateManager.failuresSeen :=
                            StateManager.consecutiveFailures r;
                          StateManager.recovery_firstSeen :=
                            StateManager.firstSeen r |}]
               else [])
              ck (S (S (S k))))
        else
          handleFailure m serviceId service result (mkWorld st det sent ck k)
    end.
Proof.
  intros Hack. unfold handleCheckResult.
  unfold mbind at 1, M_bind at 1, bind at 1, read_state at 1, on_state at 1.
  simpl. rewrite Hack.
  unfold mbind at 1, M_bind at 1, bind at 1, read_state at 1, on_state at 1.
  simpl. unfold StateManager.getFailure.
  destruct (StateManager.failures st !! serviceId) as [r|] eqn:Hr;
    destruct (healthy result); simpl.
  - unfold handleRecovery, recordRecovery, recordStateChange.
    repeat (unfold mbind, M_bind, bind, Date_now, on_state, update_state,
              send, mret, M_ret, ret; simpl).
    unfold StateManager.recordRecovery. simpl. rewrite Hr. simpl.
    destruct (default false (alerts_field recoveryNotify (config m))
              && notifier m); simpl; [done|]. by rewrite app_nil_r.
  - by unfold mbind, M_bind, bind, mret, M_ret, ret.
  - by unfold mbind, M_bind, bind, mret, M_ret, ret.
  - unfold recordStateChange.
    unfold mbind at 1, M_bind at 1, bind at 1.
    unfold mbind at 1, M_bind at 1, bind at 1.
    by repeat (unfold mbind at 1, M_bind at 1, bind at 1, Date_now, on_state,
                 mret, M_ret, ret; simpl).
Qed.

(** X19. A healthy result of a healthy service is a no-op: for a
    service that is not acknowledged and has no failure record,
    [handleCheckResult] of a healthy result leaves the world as it is,
    without a notification, a transition or a reading of the clock. *)
Theorem healthy_result_is_noop (m : t) (serviceId : string)
    (service : Service) (result : CheckResult) (w : World)
    (Hack : StateManager.isAcknowledged serviceId (stateManager w) = false)
    (Hprev : StateManager.getFailure serviceId (stateManager w) = None)
    (Hh : healthy result = true) :
  handleCheckResult m serviceId service result w = Some (tt, w).
Proof.
  destruct w as [st det sent ck k]; simpl in *.
  rewrite handleCheckResult_run by done.
  unfold StateManager.getFailure in Hprev. by rewrite Hprev, Hh.
Qed.

Lemma healthy_result_is_noop_witness :
  handleCheckResult loud_monitor "docker:web" (ServiceConfig "web" "")
    {| healthy := true; responseTime := 0; error := None |} fresh_world
  = Some (tt, fresh_world).
Proof.
  apply healthy_result_is_noop; reflexivity.
Defined.



Lemma recordFailure_frame (config : Config) (now : Z) (serviceId : string)
    (err : option string) (st : StateManager.State) :
  let st' := (StateManager.recordFailure config now serviceId err st).2 in
  StateManager.flapping st' = StateManager.flapping st
  ∧ StateManager.acknowledged st' = StateManager.acknowledged st
  ∧ StateManager.sslExpiry st' = StateManager.sslExpiry st.
Proof.
  unfold StateManager.recordFailure.
  destruct (StateManager.failures st !! serviceId) as [r|]; simpl; [|done].
  by destruct (Qle_bool _ _).
Qed.

Lemma handleFailure_touches (m : t) (serviceId : string) (service : Service)
    (result : CheckResult) (w : World) :
  ∃ w', handleFailure m serviceId service result w = Some (tt, w')
        ∧ only_touches serviceId w w'
        ∧ stateManager w'
          = (StateManager.recordFailure (config m) (clock w (reads w))
               serviceId (error result) (stateManager w)).2.
Proof.
  destruct w as [st det sent ck k].
  pose proof (handleFailure_run m serviceId service result st det sent ck k)
    as Hrun.
  pose proof (recordFailure_frame (config m) (ck k) serviceId (error result)
                st) as (Hfl & Hack & Hssl).
  pose proof (recordFailure_lookup_ne (config m) (ck k) serviceId) as Hother.
  destruct (StateManager.recordFailure (config m) (ck k) serviceId
              (error result) st) as [action st2] eqn:Hrf.
  simpl in *. eexists. split; [exact Hrun|]. split; [|by rewrite Hrf].
  unfold only_touches; simpl.
  split; [done|]. split; [done|].
  split; [destruct (StateManager.isFlapping _ _ _ _); lia|].
  split; [done|]. split; [done|]. split.
  { intros other Hne. split; [|by rewrite Hfl].
    specialize (Hother other (error result) st Hne). by rewrite Hrf in Hother. }
  eexists. split; [done|].
  assert (∀ l : list Notification,
            l = [] ∨ (∃ n, l = [n] ∧ is_anomaly_alert n = false) ->
            length l ≤ 1 ∧ Forall (fun n => is_anomaly_alert n = false) l)
    as Hone.
  { intros l [->|(n & -> & Hn)]; simpl; (split; [lia|]);
      by repeat constructor. }
  assert (∀ a, is_anomaly_alert (down_alert serviceId service result a)
               = false) as Hdown.
  { intros a. unfold down_alert.
    destruct (startsWith serviceId "ssl:"); [done|].
    by destruct (startsWith serviceId "resource:"). }
  apply Hone. destruct (notifier m); simpl; [|by left].
  destruct (StateManager.isFlapping _ _ _ _); [right; eauto|].
  destruct action; [right; eauto|right; eauto|by left].
Qed.

Lemma handleCheckResult_touches (m : t) (serviceId : string)
    (service : Service) (result : CheckResult) (w : World) :
  ∃ w', handleCheckResult m serviceId service result w = Some (tt, w')
        ∧ only_touches serviceId w w'
        ∧ (notifier m = false -> notified w' = notified w).
Proof.
  destruct (StateManager.isAcknowledged serviceId (stateManager w))
    eqn:Hack.
  { exists w. split; [by apply handleCheckResult_skip|].
    split; [|done]. unfold only_touches. repeat (split; [done|]).
    exists []. rewrite app_nil_r. split; [done|]. simpl.
    split; [lia|constructor]. }
  destruct w as [st det sent ck k]; simpl in *.
  rewrite handleCheckResult_run by done.
  destruct (StateManager.failures st !! serviceId) as [r|] eqn:Hr;
    destruct (healthy result).
  - eexists. split; [done|]. split.
    + unfold only_touches; simpl.
      split; [done|]. split; [done|]. split; [lia|].
      split; [done|]. split; [done|]. split.
      { intros other Hne. rewrite !lookup_delete_ne by done.
        by rewrite lookup_insert_ne. }
      eexists. split; [done|].
      destruct (_ && _); simpl; (split; [lia|]); by repeat constructor.
    + simpl. intros ->. by rewrite andb_false_r, app_nil_r.
  - destruct (handleFailure_touches m serviceId service result
                (mkWorld st det sent ck k)) as (w' & Hrun & Htouch & _).
    exists w'. split; [done|]. split; [done|].
    intros Hn. pose proof (handleFailure_run m serviceId service result st
                             det sent ck k) as Hrun'.
    destruct (StateManager.recordFailure _ _ _ _ st) as [action st2].
    rewrite Hrun' in Hrun. injection Hrun as <-. simpl.
    by rewrite Hn, app_nil_r.
  - eexists. split; [done|]. split; [|done].
    unfold only_touches. repeat (split; [done|]).
    exists []. rewrite app_nil_r. split; [done|]. simpl.
    split; [lia|constructor].
  - set (st1 := (StateManager.recordStateChange (config m) (ck k) (ck (S k))
                   serviceId StateManager.unhealthy st).2).
    destruct (handleFailure_touches m serviceId service result
                (mkWorld st1 det sent ck (S (S k))))
      as (w' & Hrun & Htouch & _).
    exists w'. split; [done|]. split.
    + destruct Htouch as (Hd & Hc & Hk & Ha & Hs & Ho & Hex).
      simpl in *. unfold only_touches; simpl.
      split; [done|]. split; [done|]. split; [lia|].
      split; [done|]. split; [done|]. split; [|done].
      intros other Hne. destruct (Ho other Hne) as [Hf Hl].
      rewrite Hf, Hl. simpl. by rewrite lookup_insert_ne.
    + intros Hn. pose proof (handleFailure_run m serviceId service result st1
                               det sent ck (S (S k))) as Hrun'.
      destruct (StateManager.recordFailure _ _ _ _ st1) as [action st2].
      rewrite Hrun' in Hrun. injection Hrun as <-. simpl.
      by rewrite Hn, app_nil_r.
Qed.

(** X21. The footprint of a check result.  [handleCheckResult] always
    returns, whatever the result and the world.  It sends at most one
    notification, after those sent before, and never an anomaly alert; it
    changes neither the anomaly detector, nor the acknowledged set, nor
    the expiry cache, nor the failure record or the transition log of
    any other service; and a monitor without a notifier sends
    nothing. *)
Theorem handleCheckResult_footprint (m : t) (serviceId : string)
    (service : Service) (result : CheckResult) (w : World) :
  ∃ w', handleCheckResult m serviceId service result w = Some (tt, w')
        ∧ only_touches serviceId w w'
        ∧ length (notified w') ≤ S (length (notified w))
        ∧ (notifier m = false -> notified w' = notified w).
Proof.
  destruct (handleCheckResult_touches m serviceId service result w)
    as (w' & Hrun & Htouch & Hsilent).
  exists w'. split; [done|]. split; [done|]. split; [|done].
  destruct Htouch as (_ & _ & _ & _ & _ & _ & extra & -> & Hlen & _).
  rewrite length_app. lia.
Qed.

(** X22. Transitions are recorded on edges only.  For an unhealthy
    result of a service that is not acknowledged: when the service
    already has a failure record, no transition log changes, however
    often the failure is reported; when it has none, exactly one
    transition to unhealthy, stamped with the clock, is appended to the
    log of the service, which is trimmed to 10 entries. *)
Theorem transitions_on_edges (m : t) (serviceId : string)
    (service : Service) (result : CheckResult) (w : World)
    (Hack : StateManager.isAcknowledged serviceId (stateManager w) = false)
    (Hun : healthy result = false) :
  ∃ w', handleCheckResult m serviceId service result w = Some (tt, w')
        ∧ match StateManager.getFailure serviceId (stateManager w) with
          | Some _ =>
              StateManager.flapping (stateManager w')
              = StateManager.flapping (stateManager w)
          | None =>
              StateManager.transitions_of serviceId (stateManager w')
              = let log :=
                  StateManager.transitions_of serviceId (stateManager w)
                  ++ [{| StateManager.time := clock w (reads w);
                         StateManager.state := StateManager.unhealthy |}] in
                if 10 <? length log then drop 1 log else log
          end.
Proof.
  destruct w as [st det sent ck k]; simpl in *.
  rewrite handleCheckResult_run by done. rewrite Hun.
  unfold StateManager.getFailure.
  destruct (StateManager.failures st !! serviceId) as [r|] eqn:Hr.
  - destruct (handleFailure_touches m serviceId service result
                (mkWorld st det sent ck k)) as (w' & Hrun & _ & Hst).
    exists w'. split; [done|]. rewrite Hst. simpl.
    apply recordFailure_frame.
  - set (st1 := (StateManager.recordStateChange (config m) (ck k) (ck (S k))
                   serviceId StateManager.unhealthy st).2).
    destruct (handleFailure_touches m serviceId service result
                (mkWorld st1 det sent ck (S (S k)))) as (w' & Hrun & _ & Hst).
    exists w'. split; [done|]. rewrite Hst. simpl.
    unfold StateManager.transitions_of at 1.
    destruct (recordFailure_frame (config m) (ck (S (S k))) serviceId
                (error result) st1) as (-> & _).
    unfold st1. simpl. by rewrite lookup_insert_eq.
Qed.

Lemma transitions_on_edges_witness :
  ∃ w', handleCheckResult loud_monitor "docker:web" (ServiceConfig "web" "")
          down_result fresh_world = Some (tt, w')
        ∧ StateManager.transitions_of "docker:web" (stateManager w')
          = [{| StateManager.time := 0;
                StateManager.state := StateManager.unhealthy |}].
Proof.
  destruct (transitions_on_edges loud_monitor "docker:web"
              (ServiceConfig "web" "") down_result fresh_world
              eq_refl eq_refl) as (w' & Hrun & Hlog).
  exists w'. split; [exact Hrun|]. exact Hlog.
Defined.

(** X23. What an endpoint check does to the detector.  An unhealthy
    result leaves the anomaly detector as it is.  For a healthy result,
    when recording returns and the check answers, the detector is the one
    that [recordResponseTime] returns, the response time being recorded
    before it is judged and whether or not it is an anomaly; an anomaly
    alert is sent exactly when the answer is an anomaly and the monitor
    has a notifier, before the at most one notification of the up/down
    handling, which is never an anomaly alert. *)
Theorem checkEndpoint_samples (m : t) (endpoint : Service)
    (result : CheckResult) (w : World) :
  let serviceId := "http:" +:+ service_url endpoint in
  (healthy result = false ->
   ∃ w', checkEndpoint m endpoint result w = Some (tt, w')
         ∧ anomalyDetector w' = anomalyDetector w)
  ∧ (healthy result = true ->
     ∀ d1 anomaly,
       AnomalyDetector.recordResponseTime serviceId (responseTime result)
         (anomalyDetector w) = Returned d1 ->
       AnomalyDetector.checkAnomaly serviceId (responseTime result) d1
       = Some anomaly ->
       ∃ w' rest,
         checkEndpoint m endpoint result w = Some (tt, w')
         ∧ anomalyDetector w' = d1
         ∧ notified w'
           = notified w
             ++ (if AnomalyDetector.isAnomaly anomaly && notifier m
                 then [AnomalyAlert serviceId endpoint anomaly] else [])
             ++ rest
         ∧ length rest ≤ 1
         ∧ Forall (fun n => is_anomaly_alert n = false) rest).
Proof.
  intros serviceId. unfold checkEndpoint. cbv zeta. fold serviceId.
  split.
  - intros ->.
    destruct (handleCheckResult_touches m serviceId endpoint result w)
      as (w' & Hrun & (Hdet & _) & _).
    by exists w'.
  - intros -> d1 anomaly Hrec Hcheck.
    destruct w as [st det sent ck k]; simpl in *.
    set (alert := if AnomalyDetector.isAnomaly anomaly && notifier m
                  then [AnomalyAlert serviceId endpoint anomaly] else []).
    destruct (handleCheckResult_touches m serviceId endpoint result
                (mkWorld st d1 (sent ++ alert) ck k))
      as (w' & Hrun & (Hdet & _ & _ & _ & _ & _ & rest & Hrest & Hlen & Hno)
          & _).
    exists w', rest. simpl in *.
    split; [|split; [done|split; [by rewrite Hrest, app_assoc|done]]].
    rewrite <- Hrun.
    unfold mbind at 1, M_bind at 1, bind at 1, read_detector at 1.
    simpl. rewrite Hrec.
    unfold mbind at 1, M_bind at 1, bind at 1, set_detector at 1.
    unfold mbind at 1, M_bind at 1, bind at 1, read_detector at 1.
    simpl. rewrite Hcheck.
    unfold mbind at 1, M_bind at 1, bind at 1, defined at 1.
    unfold mbind at 1, M_bind at 1, bind at 1.
    unfold alert, handleAnomaly, send, mret, M_ret, ret.
    destruct (AnomalyDetector.isAnomaly anomaly), (notifier m); simpl;
      by rewrite ?app_nil_r.
Qed.

Lemma checkEndpoint_samples_witness :
  ∃ w', checkEndpoint loud_monitor (ServiceUrl "https://example.org")
          down_result fresh_world = Some (tt, w')
        ∧ anomalyDetector w' = anomalyDetector fresh_world.
Proof.
  destruct (checkEndpoint_samples loud_monitor
              (ServiceUrl "https://example.org") down_result fresh_world)
    as [Hdown _].
  apply Hdown. reflexivity.
Defined.

(** X24. A sample size that is not positive swallows healthy
    results.  On a monitor whose detector is enabled, does not track the
    endpoint and has a sample size that is not positive, the buffer
    constructor throws inside the [try] block of [checkEndpoint]: a
    healthy result leaves the world as it is, so that a failure record
    of the endpoint stays and no recovery is handled. *)
Theorem checkEndpoint_swallows (m : t) (endpoint : Service)
    (result : CheckResult) (w : World)
    (Hh : healthy result = true)
    (Hen : AnomalyDetector.enabled (anomalyDetector w) = true)
    (Hnone : AnomalyDetector.responseTimes (anomalyDetector w)
             !! ("http:" +:+ service_url endpoint) = None)
    (Hsz : (AnomalyDetector.sampleSize (anomalyDetector w) <= 0)%Z) :
  checkEndpoint m endpoint result w = Some (tt, w).
Proof.
  unfold checkEndpoint. cbv zeta. rewrite Hh.
  unfold mbind, M_bind, bind, read_detector,
    AnomalyDetector.recordResponseTime, CircularBuffer.new.
  rewrite Hen, Hnone. simpl.
  by destruct (Z.leb_spec (AnomalyDetector.sampleSize (anomalyDetector w)) 0);
    [|lia].
Qed.

Lemma checkEndpoint_swallows_witness :
  checkEndpoint loud_monitor (ServiceUrl "https://example.org") slow_result
    {| stateManager := StateManager.empty;
       anomalyDetector := AnomalyDetector.new negative_sample_size;
       notified := [];
       clock := fun n => Z.of_nat n;
       reads := 0 |}
  = Some (tt,
      {| stateManager := StateManager.empty;
         anomalyDetector := AnomalyDetector.new negative_sample_size;
         notified := [];
         clock := fun n => Z.of_nat n;
         reads := 0 |}).
Proof.
  apply checkEndpoint_swallows; [reflexivity|reflexivity|reflexivity|].
  vm_compute. discriminate.
Defined.

End MonitorRuns.

(** ** The notifier queue *)

Section NotifierQueue.
Import TelegramNotifier.

Lemma queue_inv_start : queue_inv start.
Proof. by repeat split. Qed.

Lemma js_lt_true (a b : Q) : js_lt a b = true -> (0 < b - a)%Q.
Proof.
  unfold js_lt. intros H. apply negb_true_iff, Qle_bool_false in H. lra.
Qed.

Lemma seq_snoc (a n : nat) : seq a (S n) = seq a n ++ [a + n].
Proof. apply seq_S. Qed.

Lemma settled_snoc (st : list (nat * bool)) (k : nat) :
  st.*1 = seq 0 (List.length st) -> k = List.length st ->
  st.*1 ++ [k] = seq 0 (List.length st + 1).
Proof. intros Hst ->. by rewrite Nat.add_1_r, seq_snoc, Hst. Qed.

Lemma queue_inv_step (ev : Event) (r r' : Run) :
  queue_inv r -> step ev r = Some r' -> queue_inv r'.
Proof.
  destruct r as [[q f l] s tr st p u].
  unfold queue_inv, in_flight, waiting; simpl.
  intros (Hu & Hst & Hq & Hp & Htr & Hs) Hstep.
  destruct s as [|[ms|e] [|]]; try done; csimpl in *.
  - destruct Hs as [-> ->]. destruct ev; simpl in Hstep; try done.
    injection Hstep as <-.
    unfold sendMessage, processQueue, loop, dispatch, suspend; simpl.
    destruct (js_lt _ _) eqn:Hlt; csimpl in *.
    + apply js_lt_true in Hlt. repeat split; try done; try lia.
      by rewrite Hp, Nat.add_0_r.
    + repeat split; try done; try lia.
      * by rewrite Hp, Nat.add_0_r.
      * rewrite length_app; simpl; lia.
  - destruct Hs as (-> & Hne & Hms).
    destruct ev as [text now|[|i]|[|i] sentAt now|[|i] now];
      simpl in Hstep; try done; injection Hstep as <-.
    + unfold sendMessage, processQueue; csimpl.
      rewrite !length_app, fmap_app in *; simpl.
      repeat split; try done; try lia.
      * rewrite Nat.add_1_r, seq_snoc, Hq. by rewrite Hp.
      * by destruct q.
    + unfold afterSleep, dispatch, resume; csimpl.
      destruct q as [|e rest]; [done|]. csimpl in *.
      repeat split; try done; try lia.
      rewrite length_app; simpl; lia.
  - destruct ev as [text now|[|i]|[|i] sentAt now|[|i] now];
      simpl in Hstep; try done; injection Hstep as <-.
    + unfold sendMessage, processQueue; csimpl. rewrite Hs; simpl.
      rewrite !length_app, fmap_app in *; simpl.
      repeat split; try done; try lia.
      rewrite Nat.add_1_r. injection Hq as Hq1 Hq2.
      rewrite seq_snoc, Hq1, Hq2, Hp. do 3 f_equal. lia.
    + unfold afterSent, loop, dispatch, settle, suspend, resume,
        set_notifier; csimpl.
      destruct q as [|e' rest]; csimpl in *.
      * rewrite !length_app, fmap_app; simpl.
        injection Hq as Hq.
        repeat split; try done; try lia.
        by apply settled_snoc.
      * injection Hq as Hq1 Hq2 Hq3.
        destruct (js_lt _ _) eqn:Hlt; csimpl;
          rewrite !length_app, fmap_app; simpl.
        -- apply js_lt_true in Hlt.
           repeat split; try done; try lia.
           ++ by apply settled_snoc.
           ++ rewrite Hq2, Hq3, Nat.add_1_r. done.
        -- repeat split; try done; try lia.
           ++ by apply settled_snoc.
           ++ rewrite Hq2, Hq3, Nat.add_1_r. done.
    + unfold afterFailed, loop, dispatch, settle, suspend, resume,
        set_notifier; csimpl.
      destruct q as [|e' rest]; csimpl in *.
      * rewrite !length_app, fmap_app; simpl.
        injection Hq as Hq.
        repeat split; try done; try lia.
        by apply settled_snoc.
      * injection Hq as Hq1 Hq2 Hq3.
        destruct (js_lt _ _) eqn:Hlt; csimpl;
          rewrite !length_app, fmap_app; simpl.
        -- apply js_lt_true in Hlt.
           repeat split; try done; try lia.
           ++ by apply settled_snoc.
           ++ rewrite Hq2, Hq3, Nat.add_1_r. done.
        -- repeat split; try done; try lia.
           ++ by apply settled_snoc.
           ++ rewrite Hq2, Hq3, Nat.add_1_r. done.
Qed.

Lemma queue_inv_run (evs : list Event) (r r' : Run) :
  queue_inv r -> run evs r = Some r' -> queue_inv r'.
Proof.
  revert r. induction evs as [|ev evs IH]; intros r Hr Hrun; simpl in Hrun.
  - by injection Hrun as <-.
  - destruct (step ev r) as [r1|] eqn:Hstep; [|done]. simpl in Hrun.
    eauto using queue_inv_step.
Qed.

(** What a step does to the texts and to the answers. *)
Lemma step_texts (ev : Event) (r r' : Run) :
  step ev r = Some r' ->
  transport r' ++ (message <$> waiting r')
  = (transport r ++ (message <$> waiting r)) ++ requested [ev].
Proof.
  destruct r as [[q f l] s tr st p u]. unfold waiting.
  destruct ev as [text now|i|i sentAt now|i now]; simpl; intros Hstep.
  - injection Hstep as <-.
    unfold sendMessage, processQueue, loop, dispatch, suspend, set_notifier;
      csimpl.
    destruct f; csimpl.
    + by rewrite fmap_app, app_assoc.
    + destruct (q ++ _) as [|e rest] eqn:Hq; [by destruct q|]; csimpl.
      apply (f_equal (fmap message)) in Hq. rewrite fmap_app in Hq.
      csimpl in Hq.
      destruct (js_lt _ _); csimpl; rewrite <- ?app_assoc; csimpl;
        by rewrite <- Hq.
  - destruct (s !! i) as [[ms|e]|]; try done. injection Hstep as <-.
    unfold afterSleep, dispatch, resume; csimpl. rewrite app_nil_r.
    destruct q as [|e rest]; csimpl; [done|]. by rewrite <- app_assoc.
  - destruct (s !! i) as [[ms|e]|]; try done. injection Hstep as <-.
    unfold afterSent, loop, dispatch, settle, suspend, resume, set_notifier;
      csimpl.
    rewrite app_nil_r.
    destruct q as [|e' rest]; csimpl; [done|].
    destruct (js_lt _ _); csimpl; [done|]. by rewrite <- app_assoc.
  - destruct (s !! i) as [[ms|e]|]; try done. injection Hstep as <-.
    unfold afterFailed, loop, dispatch, settle, suspend, resume,
      set_notifier; csimpl.
    rewrite app_nil_r.
    destruct q as [|e' rest]; csimpl; [done|].
    destruct (js_lt _ _); csimpl; [done|]. by rewrite <- app_assoc.
Qed.

Lemma step_answers (ev : Event) (r r' : Run) :
  step ev r = Some r' ->
  (settled r').*2 = (settled r).*2 ++ outcomes [ev].
Proof.
  destruct r as [[q f l] s tr st p u].
  destruct ev as [text now|i|i sentAt now|i now]; simpl; intros Hstep.
  - injection Hstep as <-.
    unfold sendMessage, processQueue, loop, dispatch, suspend, set_notifier;
      csimpl.
    rewrite app_nil_r.
    destruct f; csimpl; [done|].
    destruct (q ++ _) as [|e rest]; csimpl; [done|].
    by destruct (js_lt _ _).
  - destruct (s !! i) as [[ms|e]|]; try done. injection Hstep as <-.
    unfold afterSleep, dispatch, resume; csimpl. rewrite app_nil_r.
    by destruct q.
  - destruct (s !! i) as [[ms|e]|]; try done. injection Hstep as <-.
    unfold afterSent, loop, dispatch, settle, suspend, resume, set_notifier;
      csimpl.
    destruct q as [|e' rest]; csimpl; [by rewrite fmap_app|].
    destruct (js_lt _ _); csimpl; by rewrite fmap_app.
  - destruct (s !! i) as [[ms|e]|]; try done. injection Hstep as <-.
    unfold afterFailed, loop, dispatch, settle, suspend, resume,
      set_notifier; csimpl.
    destruct q as [|e' rest]; csimpl; [by rewrite fmap_app|].
    destruct (js_lt _ _); csimpl; by rewrite fmap_app.
Qed.

Lemma requested_app (evs evs' : list Event) :
  requested (evs ++ evs') = requested evs ++ requested evs'.
Proof. apply omap_app. Qed.

Lemma outcomes_app (evs evs' : list Event) :
  outcomes (evs ++ evs') = outcomes evs ++ outcomes evs'.
Proof. apply omap_app. Qed.

Lemma run_texts (evs : list Event) (r r' : Run) :
  run evs r = Some r' ->
  transport r' ++ (message <$> waiting r')
  = (transport r ++ (message <$> waiting r)) ++ requested evs.
Proof.
  revert r. induction evs as [|ev evs IH]; intros r Hrun; simpl in Hrun.
  - injection Hrun as <-. by rewrite app_nil_r.
  - destruct (step ev r) as [r1|] eqn:Hstep; [|done]. simpl in Hrun.
    rewrite (IH _ Hrun), (step_texts _ _ _ Hstep).
    change (ev :: evs) with ([ev] ++ evs).
    by rewrite requested_app, !app_assoc.
Qed.

Lemma run_answers (evs : list Event) (r r' : Run) :
  run evs r = Some r' ->
  (settled r').*2 = (settled r).*2 ++ outcomes evs.
Proof.
  revert r. induction evs as [|ev evs IH]; intros r Hrun; simpl in Hrun.
  - injection Hrun as <-. by rewrite app_nil_r.
  - destruct (step ev r) as [r1|] eqn:Hstep; [|done]. simpl in Hrun.
    rewrite (IH _ Hrun), (step_answers _ _ _ Hstep).
    change (ev :: evs) with ([ev] ++ evs).
    by rewrite outcomes_app, !app_assoc.
Qed.


Lemma step_work (ev : Event) (r r' : Run) :
  queue_inv r -> continuation ev = true -> step ev r = Some r' ->
  S (work_left r') <= work_left r.
Proof.
  destruct r as [[q f l] s tr st p u].
  unfold queue_inv, work_left, in_flight, waiting; simpl.
  intros (_ & _ & _ & _ & _ & Hs) Hev Hstep.
  destruct s as [|[ms|e] [|]]; try done; csimpl in *.
  - by destruct ev as [text now|[|i]|[|i] sentAt now|[|i] now].
  - destruct Hs as (_ & Hne & _).
    destruct ev as [text now|[|i]|[|i] sentAt now|[|i] now];
      simpl in Hstep; try done; injection Hstep as <-.
    unfold afterSleep, dispatch, resume; csimpl.
    destruct q as [|e rest]; [done|]. csimpl. lia.
  - destruct ev as [text now|[|i]|[|i] sentAt now|[|i] now];
      simpl in Hstep; try done; injection Hstep as <-.
    + unfold afterSent, loop, dispatch, settle, suspend, resume,
        set_notifier; csimpl.
      destruct q as [|e' rest]; csimpl; [lia|].
      destruct (js_lt _ _); csimpl; lia.
    + unfold afterFailed, loop, dispatch, settle, suspend, resume,
        set_notifier; csimpl.
      destruct q as [|e' rest]; csimpl; [lia|].
      destruct (js_lt _ _); csimpl; lia.
Qed.

Lemma run_work (evs : list Event) (r r' : Run) :
  queue_inv r -> Forall (fun ev => continuation ev = true) evs ->
  run evs r = Some r' ->
  List.length evs + work_left r' <= work_left r.
Proof.
  revert r. induction evs as [|ev evs IH]; intros r Hr Hevs Hrun;
    simpl in Hrun.
  - injection Hrun as <-. simpl. lia.
  - destruct (step ev r) as [r1|] eqn:Hstep; [|done]. simpl in Hrun.
    apply Forall_cons in Hevs as [Hev Hevs].
    pose proof (step_work _ _ _ Hr Hev Hstep).
    pose proof (IH _ (queue_inv_step _ _ _ Hr Hstep) Hevs Hrun).
    simpl. lia.
Qed.

Lemma step_progress (r : Run) :
  queue_inv r -> ~ idle r ->
  exists ev, continuation ev = true /\ is_Some (step ev r).
Proof.
  destruct r as [[q f l] s tr st p u].
  unfold queue_inv, idle, waiting; simpl.
  intros (_ & _ & _ & _ & _ & Hs) Hidle.
  destruct s as [|[ms|e] [|]]; try done.
  - exfalso. apply Hidle. tauto.
  - by exists (Timer 0).
  - by exists (Delivered 0 0 0).
Qed.

Lemma run_app (evs evs' : list Event) (r : Run) :
  run (evs ++ evs') r = r' ← run evs r; run evs' r'.
Proof.
  revert r. induction evs as [|ev evs IH]; intros r; simpl; [done|].
  destruct (step ev r); simpl; [apply IH|done].
Qed.

Lemma drain (r : Run) :
  queue_inv r ->
  exists evs r',
    Forall (fun ev => continuation ev = true) evs /\
    run evs r = Some r' /\ idle r'.
Proof.
  remember (work_left r) as n eqn:Hn. revert r Hn.
  induction (lt_wf n) as [n _ IH]. intros r -> Hr.
  destruct (decide (TelegramNotifier.suspended r = [])) as [Hs|Hs].
  - exists [], r. repeat split; try done.
    + destruct Hr as (_ & _ & _ & _ & _ & Hr). rewrite Hs in Hr. tauto.
    + destruct Hr as (_ & _ & _ & _ & _ & Hr). rewrite Hs in Hr. tauto.
  - destruct (step_progress r Hr) as (ev & Hev & [r1 Hstep]).
    { intros (? & _). done. }
    pose proof (step_work _ _ _ Hr Hev Hstep) as Hlt.
    destruct (IH (work_left r1) Hlt r1 eq_refl
                (queue_inv_step _ _ _ Hr Hstep)) as (evs & r' & Hevs & Hrun & Hidle).
    exists (ev :: evs), r'. repeat split; try apply Hidle.
    + by constructor.
    + simpl. by rewrite Hstep.
Qed.

Lemma requested_continuations (evs : list Event) :
  Forall (fun ev => continuation ev = true) evs -> requested evs = [].
Proof.
  induction 1 as [|ev evs Hev _ IH]; [done|].
  destruct ev; try done; simpl in *; exact IH.
Qed.

Lemma promises_requested (evs : list Event) (r : Run) :
  run evs start = Some r -> promises r = List.length (requested evs).
Proof.
  intros Hrun.
  pose proof (queue_inv_run _ _ _ queue_inv_start Hrun)
    as (_ & _ & _ & Hp & Htr & _).
  apply run_texts in Hrun. simpl in Hrun.
  apply (f_equal List.length) in Hrun.
  rewrite !length_app, length_fmap in Hrun. rewrite length_app in Hp.
  simpl in Hrun. lia.
Qed.

(** X25.  Along every run of the notifier from its construction: no
    activation of [processQueue] ends with an exception; at most one
    activation is suspended, and [isProcessingQueue] is set exactly while
    one is; when none is suspended the queue is empty; the texts handed to
    the transport, followed by the texts still queued, are the texts that
    were requested, in the order of the requests; the transport has been
    called once for every settled promise and once for the entry in
    flight; and the promises are settled in the order of their creation,
    the k-th with the k-th answer of the transport. *)
Theorem notifier_queue_order (evs : list Event) (r : Run) :
  run evs start = Some r ->
  uncaught r = 0 /\
  List.length (suspended r) <= 1 /\
  (isProcessingQueue (notifier r) = true <-> suspended r <> []) /\
  (suspended r = [] -> waiting r = []) /\
  transport r ++ (message <$> waiting r) = requested evs /\
  List.length (transport r)
    = List.length (settled r) + List.length (in_flight r) /\
  settled r = zip (seq 0 (List.length (outcomes evs))) (outcomes evs).
Proof.
  intros Hrun.
  pose proof (queue_inv_run _ _ _ queue_inv_start Hrun)
    as (Hu & Hst & _ & _ & Htr & Hs).
  pose proof (run_texts _ _ _ Hrun) as Htexts.
  pose proof (run_answers _ _ _ Hrun) as Hans. simpl in Htexts, Hans.
  repeat split; try done.
  - destruct (suspended r) as [|[ms|e] [|]]; simpl; try done; lia.
  - destruct (suspended r) as [|[ms|e] [|]]; try done.
    destruct Hs as [Hs _]. congruence.
  - destruct (suspended r) as [|[ms|e] [|]]; try done; tauto.
  - intros Hnil. rewrite Hnil in Hs. tauto.
  - rewrite <- Hans, length_fmap, <- Hst. by rewrite zip_fst_snd.
Qed.

Lemma notifier_queue_order_witness :
  let evs := [Send "a" 1000; Send "b" 1001; Delivered 0 1005 1006;
              Timer 0; Failed 0 1050]%Z in
  let r := mkRun (mk [] false 1005) [] ["a"; "b"] [(0, true); (1, false)]
             2 0 in
  run evs start = Some r /\
  transport r ++ (message <$> waiting r) = requested evs /\
  settled r = zip (seq 0 (List.length (outcomes evs))) (outcomes evs).
Proof.
  assert (Hrun : run [Send "a" 1000; Send "b" 1001; Delivered 0 1005 1006;
                      Timer 0; Failed 0 1050]%Z start
                 = Some (mkRun (mk [] false 1005) [] ["a"; "b"]
                           [(0, true); (1, false)] 2 0)) by reflexivity.
  split; [exact Hrun|].
  destruct (notifier_queue_order _ _ Hrun) as (_ & _ & _ & _ & H1 & _ & H2).
  split; [exact H1|exact H2].
Defined.

(** X26.  From every state that a run of the notifier reaches, resuming
    the suspended activation (the timer fires, the transport answers)
    can go on for at most two steps per queued entry and one for the
    entry in flight, whatever the answers and the clock; as long as the
    notifier is not idle there is such a step; and resuming until the end
    leaves the notifier idle, with every requested text handed to the
    transport and every promise created so far settled. *)
Theorem notifier_queue_drains (evs : list Event) (r : Run) :
  run evs start = Some r ->
  (forall evs' r',
     Forall (fun ev => continuation ev = true) evs' ->
     run evs' r = Some r' ->
     List.length evs' + work_left r' <= work_left r) /\
  (~ idle r -> exists ev, continuation ev = true /\ is_Some (step ev r)) /\
  (exists evs' r',
     Forall (fun ev => continuation ev = true) evs' /\
     run evs' r = Some r' /\ idle r' /\
     transport r' = requested evs /\
     List.length (settled r') = promises r).
Proof.
  intros Hrun.
  pose proof (queue_inv_run _ _ _ queue_inv_start Hrun) as Hr.
  split; [|split].
  - intros evs' r'. by apply run_work.
  - by apply step_progress.
  - destruct (drain r Hr) as (evs' & r' & Hevs & Hrun' & Hidle).
    exists evs', r'. repeat split; try done; try apply Hidle.
    + assert (Hall : run (evs ++ evs') start = Some r')
        by (by rewrite run_app, Hrun).
      apply run_texts in Hall. simpl in Hall.
      destruct Hidle as (_ & Hw & _). rewrite Hw in Hall. simpl in Hall.
      rewrite app_nil_r in Hall.
      by rewrite Hall, requested_app, (requested_continuations evs'),
        app_nil_r.
    + assert (Hall : run (evs ++ evs') start = Some r')
        by (by rewrite run_app, Hrun).
      pose proof (queue_inv_run _ _ _ queue_inv_start Hall)
        as (_ & _ & _ & Hp & _ & _).
      pose proof (promises_requested _ _ Hall) as Hp'.
      rewrite (promises_requested _ _ Hrun).
      rewrite requested_app, (requested_continuations evs'), app_nil_r
        in Hp' by done.
      destruct Hidle as (Hs & Hw & _).
      unfold in_flight in Hp. rewrite Hs, Hw in Hp. simpl in Hp. lia.
Qed.

Lemma notifier_queue_drains_witness :
  let evs := [Send "a" 1000; Send "b" 1001]%Z in
  let r := mkRun (mk [mkEntry "b" 1] true 0) [AwaitSend (mkEntry "a" 0)]
             ["a"] [] 2 0 in
  run evs start = Some r /\
  exists evs' r',
    Forall (fun ev => continuation ev = true) evs' /\
    run evs' r = Some r' /\ idle r' /\
    transport r' = requested evs /\
    List.length (settled r') = promises r.
Proof.
  assert (Hrun : run [Send "a" 1000; Send "b" 1001]%Z start
                 = Some (mkRun (mk [mkEntry "b" 1] true 0)
                           [AwaitSend (mkEntry "a" 0)] ["a"] [] 2 0))
    by reflexivity.
  split; [exact Hrun|].
  exact (proj2 (proj2 (notifier_queue_drains _ _ Hrun))).
Defined.

End NotifierQueue.

(** ** Schedules and durations *)

Section Texts.

Lemma div_by_parts (a b c : Z) :
  (0 < b)%Z -> (0 < c)%Z -> (a / b / c = a / (b * c))%Z.
Proof. intros. apply Z.div_div; lia. Qed.

Lemma div_round (a b : Z) : (0 < b)%Z -> ((a - a mod b) / b = a / b)%Z.
Proof.
  intros Hb. rewrite (Z.div_mod a b) at 1 by lia.
  replace (b * (a / b) + a mod b - a mod b)%Z with ((a / b) * b)%Z by lia.
  apply Z.div_mul. lia.
Qed.

(** X27.  [cronFromMs] has three regimes, told apart by the interval
    itself: below a minute the step is the whole seconds of the interval
    in a six-field expression, below an hour its whole minutes, from an
    hour on its whole hours.  In each regime the rest of the division is
    dropped, so that an interval is scheduled as the next lower multiple
    of the unit; and an interval of less than a second gives the step
    zero. *)
Theorem cronFromMs_regimes (ms : Z) :
  safe_integer ms ->
  ((ms < 60000)%Z ->
     Monitor.cronFromMs ms = "*/" +:+ show (ms / 1000) +:+ " * * * * *" /\
     Monitor.cronFromMs ms = Monitor.cronFromMs (ms - ms mod 1000)) /\
  ((60000 <= ms < 3600000)%Z ->
     Monitor.cronFromMs ms = "*/" +:+ show (ms / 60000) +:+ " * * * *" /\
     Monitor.cronFromMs ms = Monitor.cronFromMs (ms - ms mod 60000)) /\
  ((3600000 <= ms)%Z ->
     Monitor.cronFromMs ms = "0 */" +:+ show (ms / 3600000) +:+ " * * *" /\
     Monitor.cronFromMs ms = Monitor.cronFromMs (ms - ms mod 3600000)) /\
  ((0 <= ms < 1000)%Z -> Monitor.cronFromMs ms = "*/0 * * * * *").
Proof.
  intros _.
  assert (Hsec : forall x : Z,
             (x < 60000)%Z ->
             Monitor.cronFromMs x
             = "*/" +:+ show (x / 1000) +:+ " * * * * *").
  { intros x Hx. unfold Monitor.cronFromMs. cbv zeta.
    assert (x / 1000 < 60)%Z by (apply Z.div_lt_upper_bound; lia).
    by rewrite (proj2 (Z.ltb_lt _ _)). }
  assert (Hmin : forall x : Z,
             (60000 <= x < 3600000)%Z ->
             Monitor.cronFromMs x
             = "*/" +:+ show (x / 60000) +:+ " * * * *").
  { intros x Hx. unfold Monitor.cronFromMs. cbv zeta.
    assert (60 <= x / 1000)%Z by (apply Z.div_le_lower_bound; lia).
    rewrite (proj2 (Z.ltb_ge _ _)) by done.
    rewrite div_by_parts by lia. change (1000 * 60)%Z with 60000%Z.
    assert (x / 60000 < 60)%Z by (apply Z.div_lt_upper_bound; lia).
    by rewrite (proj2 (Z.ltb_lt _ _)). }
  assert (Hhour : forall x : Z,
             (3600000 <= x)%Z ->
             Monitor.cronFromMs x
             = "0 */" +:+ show (x / 3600000) +:+ " * * *").
  { intros x Hx. unfold Monitor.cronFromMs. cbv zeta.
    assert (60 <= x / 1000)%Z by (apply Z.div_le_lower_bound; lia).
    rewrite (proj2 (Z.ltb_ge _ _)) by done.
    rewrite div_by_parts by lia. change (1000 * 60)%Z with 60000%Z.
    assert (60 <= x / 60000)%Z by (apply Z.div_le_lower_bound; lia).
    rewrite (proj2 (Z.ltb_ge _ _)) by done.
    rewrite div_by_parts by lia. done. }
  repeat split.
  - by apply Hsec.
  - pose proof (Z.mod_pos_bound ms 1000).
    rewrite !Hsec by lia. by rewrite div_round.
  - by apply Hmin.
  - pose proof (Z.mod_pos_bound ms 60000).
    assert (60000 <= ms - ms mod 60000)%Z.
    { rewrite (Z.div_mod ms 60000) at 1 by lia.
      assert (1 <= ms / 60000)%Z by (apply Z.div_le_lower_bound; lia).
      lia. }
    rewrite !Hmin by lia. by rewrite div_round.
  - by apply Hhour.
  - pose proof (Z.mod_pos_bound ms 3600000).
    assert (3600000 <= ms - ms mod 3600000)%Z.
    { rewrite (Z.div_mod ms 3600000) at 1 by lia.
      assert (1 <= ms / 3600000)%Z by (apply Z.div_le_lower_bound; lia).
      lia. }
    rewrite !Hhour by lia. by rewrite div_round.
  - intros Hms. rewrite Hsec by lia. by rewrite Z.div_small.
Qed.

Lemma cronFromMs_regimes_witness :
  safe_integer 90000 /\
  Monitor.cronFromMs 90000 = "*/1 * * * *" /\
  Monitor.cronFromMs 90000 = Monitor.cronFromMs 60000.
Proof.
  assert (Hsafe : safe_integer 90000) by (unfold safe_integer; simpl; lia).
  split; [exact Hsafe|].
  destruct (cronFromMs_regimes 90000 Hsafe) as (_ & Hmin & _).
  destruct Hmin as [H1 H2]; [lia|].
  split; [exact H1|exact H2].
Defined.

(** X28.  [formatDuration] shows the two largest units of a duration
    that are in use: of a duration of [d] days, [h] hours, [m] minutes,
    [s] seconds and [r] milliseconds it shows days and hours when [d] is
    positive, else hours and minutes when [h] is positive, else minutes
    and seconds when [m] is positive, else the seconds alone; what is
    smaller is dropped, not rounded.  A negative duration is shown as its
    seconds, rounded down. *)
Theorem formatDuration_units (d h m s r : Z) :
  let ms := ((((d * 24 + h) * 60 + m) * 60 + s) * 1000 + r)%Z in
  safe_integer ms ->
  (0 <= d)%Z -> (0 <= h < 24)%Z -> (0 <= m < 60)%Z -> (0 <= s < 60)%Z ->
  (0 <= r < 1000)%Z ->
  MessageFormatter.formatDuration ms
  = (if (0 <? d)%Z then show d +:+ "d " +:+ show h +:+ "h"
     else if (0 <? h)%Z then show h +:+ "h " +:+ show m +:+ "m"
     else if (0 <? m)%Z then show m +:+ "m " +:+ show s +:+ "s"
     else show s +:+ "s") /\
  MessageFormatter.formatDuration (- ms - 1)
  = show ((- ms - 1) / 1000) +:+ "s".
Proof.
  intros ms _ Hd Hh Hm Hs Hr. split.
  - unfold MessageFormatter.formatDuration. cbv zeta.
    assert (H1 : (ms / 1000 = ((d * 24 + h) * 60 + m) * 60 + s)%Z).
    { symmetry. apply (Z.div_unique _ _ _ r); [lia|]. unfold ms. lia. }
    rewrite H1.
    assert (H2 : ((((d * 24 + h) * 60 + m) * 60 + s) / 60
                  = (d * 24 + h) * 60 + m)%Z).
    { symmetry. apply (Z.div_unique _ _ _ s); lia. }
    rewrite H2.
    assert (H3 : (((d * 24 + h) * 60 + m) / 60 = d * 24 + h)%Z).
    { symmetry. apply (Z.div_unique _ _ _ m); lia. }
    rewrite H3.
    assert (H4 : ((d * 24 + h) / 24 = d)%Z).
    { symmetry. apply (Z.div_unique _ _ _ h); lia. }
    rewrite H4.
    assert (R1 : Z.rem (d * 24 + h) 24 = h).
    { rewrite Z.rem_mod_nonneg by lia.
      symmetry. apply (Z.mod_unique _ _ d); lia. }
    assert (R2 : Z.rem ((d * 24 + h) * 60 + m) 60 = m).
    { rewrite Z.rem_mod_nonneg by lia.
      symmetry. apply (Z.mod_unique _ _ (d * 24 + h)); lia. }
    assert (R3 : Z.rem (((d * 24 + h) * 60 + m) * 60 + s) 60 = s).
    { rewrite Z.rem_mod_nonneg by lia.
      symmetry. apply (Z.mod_unique _ _ ((d * 24 + h) * 60 + m)); lia. }
    rewrite R1, R2, R3.
    destruct (0 <? d)%Z eqn:Ed; [done|].
    apply Z.ltb_ge in Ed. assert (d = 0)%Z as -> by lia.
    rewrite Z.mul_0_l, Z.add_0_l in *.
    destruct (0 <? h)%Z eqn:Eh; [done|].
    apply Z.ltb_ge in Eh. assert (h = 0)%Z as -> by lia.
    rewrite Z.mul_0_l, Z.add_0_l in *.
    destruct (0 <? m)%Z eqn:Em; [done|].
    apply Z.ltb_ge in Em. assert (m = 0)%Z as -> by lia.
    by rewrite Z.mul_0_l, Z.add_0_l.
  - assert (Hneg : (- ms - 1 < 0)%Z) by (unfold ms; lia).
    generalize dependent (- ms - 1)%Z. intros x Hx.
    unfold MessageFormatter.formatDuration. cbv zeta.
    assert (x / 1000 < 0)%Z by (apply Z.div_lt_upper_bound; lia).
    assert (x / 1000 / 60 < 0)%Z by (apply Z.div_lt_upper_bound; lia).
    assert (x / 1000 / 60 / 60 < 0)%Z by (apply Z.div_lt_upper_bound; lia).
    assert (x / 1000 / 60 / 60 / 24 < 0)%Z
      by (apply Z.div_lt_upper_bound; lia).
    by rewrite !(proj2 (Z.ltb_ge _ _)) by lia.
Qed.

Lemma formatDuration_units_witness :
  MessageFormatter.formatDuration 90061500 = "1d 1h" /\
  MessageFormatter.formatDuration (- 90061501) = "-90062s".
Proof.
  apply (formatDuration_units 1 1 1 1 500); try lia.
  unfold safe_integer; simpl; lia.
Defined.

End Texts.
